(** * mmuser-utils: a shallow embedding of [userutil.py] and [print_utils.py]

    The two Python modules are translated function by function.  Python
    objects that the code inspects (API responses, entities) are values of
    the dynamic type [value]; the process state the code touches (the
    module global [DEBUG], the two output streams, the remote server behind
    the REST client) is threaded explicitly through the monad [M], which
    also carries Python exceptions ([exit(n)] raises [SystemExit n]).

    External collaborators are parameters of the development, bundled in
    [Env]: the REST client ([mattermostdriver.Driver]) is an oracle that
    answers each call with a value and a new server state, [configparser]
    is the function from a path to the sections of the file read, the file
    system is the function from a path to the file found there, and
    [int()] is the partial function from strings to integers. *)

From Stdlib Require Import ZArith Bool Lia List Ascii String.
From stdpp Require Import base option gmap strings list.
Import ListNotations.

Local Open Scope string_scope.
Local Open Scope list_scope.

(** ** Python values *)

(** [TextIOWrapper]: an open text file, as returned by [open(path, 'r')]. *)
Record TextIOWrapper := { file_lines : list string }.

#[local] Set Warnings "-register-all".

Inductive value :=
| VNone
| VBool (b : bool)
| VInt (n : Z)
| VStr (s : string)
| VList (l : list value)
| VDict (d : list (string * value))
| VObj (name : string).

(** Truth value testing: [None], [False], zero and empty containers are
    false, every other object is true. *)
Definition truthy (v : value) : bool :=
  match v with
  | VNone => false
  | VBool b => b
  | VInt n => negb (n =? 0)%Z
  | VStr s => negb (String.eqb s "")
  | VList l => match l with [] => false | _ => true end
  | VDict d => match d with [] => false | _ => true end
  | VObj _ => true
  end.

(** Dictionaries keep insertion order; keys are strings. *)
Fixpoint dict_get (d : list (string * value)) (k : string) : option value :=
  match d with
  | [] => None
  | (k', v) :: d' => if String.eqb k' k then Some v else dict_get d' k
  end.

(** [v == s] for a string literal or [str] variable [s]. *)
Definition eq_str (v : value) (s : string) : bool :=
  match v with
  | VStr t => String.eqb t s
  | _ => false
  end.

(** A value of type [Optional[str]]. *)
Definition ostr (o : option string) : value :=
  match o with
  | Some s => VStr s
  | None => VNone
  end.

(** ** Strings

    A [string] is a sequence of code points below 256.  [str.lower()] is
    Python's on that range: [A-Z] and the Latin-1 capitals U+00C0..U+00DE
    (without the multiplication sign U+00D7) move up by 32. *)

Definition is_upper (c : ascii) : bool :=
  let n := N_of_ascii c in
  ((65 <=? n) && (n <=? 90) || (192 <=? n) && (n <=? 222) && negb (n =? 215))%N.

Definition lower_char (c : ascii) : ascii :=
  if is_upper c then ascii_of_N (N_of_ascii c + 32) else c.

Fixpoint str_map (f : ascii -> ascii) (s : string) : string :=
  match s with
  | EmptyString => EmptyString
  | String c s' => String (f c) (str_map f s')
  end.

Definition str_lower (s : string) : string := str_map lower_char s.

(** [s.replace(old, new)] for one-character [old] and [new]. *)
Definition str_replace (old new : ascii) (s : string) : string :=
  str_map (fun c => if Ascii.eqb c old then new else c) s.

Fixpoint str_all (p : ascii -> bool) (s : string) : bool :=
  match s with
  | EmptyString => true
  | String c s' => p c && str_all p s'
  end.

(** [str.strip()]: the white space of the range is removed at both ends. *)
Definition is_space (c : ascii) : bool :=
  let n := N_of_ascii c in
  ((9 <=? n) && (n <=? 13) || (28 <=? n) && (n <=? 32) || (n =? 133) || (n =? 160))%N.

Fixpoint lstrip (s : string) : string :=
  match s with
  | EmptyString => EmptyString
  | String c s' => if is_space c then lstrip s' else s
  end.

Fixpoint rstrip (s : string) : string :=
  match s with
  | EmptyString => EmptyString
  | String c s' =>
      match rstrip s' with
      | EmptyString => if is_space c then EmptyString else String c EmptyString
      | r => String c r
      end
  end.

Definition str_strip (s : string) : string := rstrip (lstrip s).

(** ** Output and exceptions *)

Inductive stream := Stdout | Stderr.

(** An f-string is a list of pieces: literal text and interpolated strings
    are [Lit], an interpolated object [v] (rendered by [str(v)]) is
    [Show v]. *)
Inductive piece :=
| Lit (s : string)
| Show (v : value).

Definition text := list piece.

Inductive exn :=
| KeyError (key : string)
| TypeError
| AttributeError
| ValueError
| ConfigError
| SystemExit (code : Z).

Inductive outcome (A : Type) :=
| Ret (a : A)
| Raise (e : exn).
Arguments Ret {A} a.
Arguments Raise {A} e.

(** A line written by [print(..., file=f)]. *)
Inductive output := Print (f : stream) (t : text).

(** ** print_utils.py *)

Module print_utils.

(** The names [print_utils.py] binds at module level: the import and the
    four functions.  The names every module has ([__name__], [__doc__] and
    the like) are left out; no [DEBUG] is bound. *)
Definition module_globals : gmap string value :=
  list_to_map [("sys", VObj "module sys");
               ("debug_print", VObj "function debug_print");
               ("print_info", VObj "function print_info");
               ("print_warn", VObj "function print_warn");
               ("print_error", VObj "function print_error")].

(** [globals_dict] is what [globals()] returns in the module. *)
Definition debug_print (globals_dict : gmap string value) (msg : text) : list output :=
  let debug_mode := default (VBool true) (globals_dict !! "DEBUG") in
  if truthy debug_mode then [Print Stdout (Lit "DEBUG: " :: msg)] else [].

Definition print_info (msg : text) : list output :=
  [Print Stdout (Lit "INFO: " :: msg)].

Definition print_warn (msg : text) : list output :=
  [Print Stderr (Lit "WARNING: " :: msg)].

Definition print_error (msg : text) : list output :=
  [Print Stderr (Lit "ERROR: " :: msg)].

End print_utils.

(** ** userutil.py *)

Module userutil.

Definition DEFAULT_CONFIG_FILE : string := "config.ini".
Definition DEFAULT_PORT : string := "443".
Definition DEFAULT_SCHEME : string := "https".

(** *** The arguments namespace

    The attributes are those the parser of [setup_parser] declares:
    [type=str] options hold a string or [None], [store_true] options a
    boolean, and [tokenfile] an open file or [None]. *)

Module arg.

Inductive str :=
| config | siteurl | port | scheme | useremail | newnickname
| teamadd | teamremove | channeladd | channelremove | team.

Inductive flag :=
| debug | forcelogout | disableuser | enableuser | removenickname.

End arg.

Record Namespace := {
  str_attr : arg.str -> option string;
  flag_attr : arg.flag -> bool;
  tokenfile : option TextIOWrapper
}.

#[export] Instance arg_str_eq_dec : EqDecision arg.str.
Proof. solve_decision. Defined.

#[export] Instance arg_flag_eq_dec : EqDecision arg.flag.
Proof. solve_decision. Defined.

(** [args.d] as a Python object, for a [type=str] attribute [d]. *)
Definition attr (args : Namespace) (d : arg.str) : value := ostr (str_attr args d).

Definition attr_tokenfile (args : Namespace) : value :=
  match tokenfile args with
  | Some _ => VObj "_io.TextIOWrapper"
  | None => VNone
  end.

(** *** The REST client *)

(** The handle returned by [Driver(options)]. *)
Record Driver := { options : list (string * value) }.

(** The client methods the program calls, with their arguments. *)
Inductive api_call :=
| login
| users_get_user_by_email (email : value)
| users_revoke_all_user_sessions (user_id : value)
| users_update_user_active_status (user_id options : value)
| users_patch_user (user_id options : value)
| teams_get_team_by_name (name : value)
| teams_add_user_to_team (team_id options : value)
| teams_remove_user_from_team (team_id user_id : value)
| channels_get_channel_by_name_and_team_name (team_name channel_name : value)
| channels_add_user (channel_id options : value)
| channels_remove_channel_member (channel_id user_id : value).

(** The calls of the action functions, with their arguments. *)
Inductive action_call :=
| call_force_user_logout (email : value)
| call_disable_user (email : value) (revert : bool)
| call_new_nickname (email : value) (newnickname : string)
| call_remove_nickname (email : value)
| call_add_user_to_team (email teamname : value)
| call_remove_user_from_team (email teamname : value)
| call_add_user_to_channel (email : value) (channelname : string) (teamname : value)
| call_remove_user_from_channel (email : value) (channelname : string) (teamname : value).

(** Why [ArgumentParser.error] was called. *)
Inductive parse_error :=
| required_missing (names : list string)
| unrecognized (args : list string)
| expected_one_argument (flag : string)
| ignored_explicit_argument (flag : string)
| invalid_choice (flag value : string)
| user_error (message : text).

(** What a run leaves behind, in order: the lines printed, the requests
    sent through the client, and the messages of [argparse].  [Enter] is
    a ghost event: it marks the entry into an action function. *)
Inductive event :=
| Out (o : output)
| Call (c : api_call)
| Enter (c : action_call)
| Usage (why : parse_error)
| Help.

(** Parsed configuration: section name to the entries of the section. *)
Abbreviation ini := (gmap string (gmap string string)).

(** The collaborators of the program.  [respond mm c w] is the answer of
    the client [mm] to the call [c] when the server is in state [w], with
    the server's next state; [read_config path] is the content
    [ConfigParser.read(path)] leaves in the parser, section by section as
    [config[section]] presents it (empty for a file that does not exist,
    [None] when reading raises); [open_file path] is the
    file at [path], [None] when [os.path.exists(path)] is false;
    [py_int s] is [int(s)], [None] when it raises [ValueError].  The
    calls of the client and [open] on an existing path are taken to
    return: an exception of the client library, or an [OSError] of
    [open], is outside the development. *)
Record Env (W : Type) := {
  respond : Driver -> api_call -> W -> value * W;
  read_config : string -> option ini;
  open_file : string -> option TextIOWrapper;
  py_int : string -> option Z
}.
Arguments respond {W}.
Arguments read_config {W}.
Arguments open_file {W}.
Arguments py_int {W}.

(** *** Process state and the monad of the program *)

Record state (W : Type) := {
  DEBUG : bool;
  trace : list event;
  world : W
}.
Arguments DEBUG {W}.
Arguments trace {W}.
Arguments world {W}.

(** Module load: [DEBUG = False]. *)
Definition initial_state {W : Type} (w : W) : state W :=
  {| DEBUG := false; trace := []; world := w |}.

Definition M (W A : Type) : Type := state W -> outcome A * state W.

Definition ret {W A} (a : A) : M W A := fun st => (Ret a, st).

Definition raise {W A} (e : exn) : M W A := fun st => (Raise e, st).

Definition bind {W A B} (m : M W A) (k : A -> M W B) : M W B :=
  fun st =>
    match m st with
    | (Ret a, st') => k a st'
    | (Raise e, st') => (Raise e, st')
    end.

Declare Scope prog_scope.
Delimit Scope prog_scope with prog.
Notation "x <- m ;; k" := (bind m (fun x => k))
  (at level 100, m at next level, right associativity) : prog_scope.
Notation "m ;; k" := (bind m (fun _ => k))
  (at level 100, right associativity) : prog_scope.
Local Open Scope prog_scope.

Definition emit {W} (e : event) : M W unit :=
  fun st => (Ret tt, {| DEBUG := DEBUG st; trace := trace st ++ [e]; world := world st |}).

Definition get_DEBUG {W} : M W bool := fun st => (Ret (DEBUG st), st).

Definition set_DEBUG {W} (b : bool) : M W unit :=
  fun st => (Ret tt, {| DEBUG := b; trace := trace st; world := world st |}).

(** [exit(code)] *)
Definition exit {W A} (code : Z) : M W A := raise (SystemExit code).

(** [v[k]] *)
Definition subscript {W} (v : value) (k : string) : M W value :=
  match v with
  | VDict d =>
      match dict_get d k with
      | Some x => ret x
      | None => raise (KeyError k)
      end
  | _ => raise TypeError
  end.

(** [v.get(k)] *)
Definition get {W} (v : value) (k : string) : M W value :=
  match v with
  | VDict d => ret (default VNone (dict_get d k))
  | _ => raise AttributeError
  end.

Section Effects.
Context {W : Type} (E : Env W).

Abbreviation M := (M W).

(** A method call on the client [mm]. *)
Definition request (mm : Driver) (c : api_call) : M value :=
  fun st =>
    let '(v, w) := respond E mm c (world st) in
    (Ret v, {| DEBUG := DEBUG st; trace := trace st ++ [Call c]; world := w |}).

Definition enter (c : action_call) : M unit := emit (Enter c).

Definition debug_print (msg : text) : M unit :=
  dbg <- get_DEBUG ;;
  if dbg then emit (Out (Print Stdout (Lit "DEBUG: " :: msg))) else ret tt.

Definition print_info (msg : text) : M unit :=
  emit (Out (Print Stdout (Lit "INFO: " :: msg))).

Definition print_warn (msg : text) : M unit :=
  emit (Out (Print Stderr (Lit "WARNING: " :: msg))).

Definition print_error (msg : text) : M unit :=
  emit (Out (Print Stderr (Lit "ERROR: " :: msg))).

(** [parser.error(message)]: usage and message on stderr, exit status 2. *)
Definition parser_error {A} (why : parse_error) : M A :=
  emit (Usage why) ;; exit 2.

(** The [parser] argument serves [parser.error] only. *)
Definition is_valid_file (arg : string) : M TextIOWrapper :=
  match open_file E arg with
  | None => parser_error (user_error [Lit "The file "; Lit arg; Lit " does not exist!"])
  | Some f => ret f
  end.

Definition load_site_config (config_file : string) : M (gmap string string) :=
  match read_config E config_file with
  | None => raise ConfigError
  | Some config =>
      match config !! "Site" with
      | Some site => ret site
      | None => raise (KeyError "Site")
      end
  end.

End Effects.

(** *** argparse

    The parser is the list of its actions, in the order of the
    [add_argument] calls, after the [-h/--help] action every parser
    starts with.  A [type=str] option stores into a string attribute;
    [--tokenfile] has [type=lambda x: is_valid_file(parser, x)] and
    stores the file. *)

Inductive arg_type :=
| type_str (d : arg.str)
| type_is_valid_file.

Inductive Action :=
| _StoreAction (option_strings : list string) (type : arg_type)
    (default : option string) (required : bool) (choices : option (list string))
| _StoreTrueAction (option_strings : list string) (d : arg.flag)
| _HelpAction (option_strings : list string).

Abbreviation ArgumentParser := (list Action).

Inductive dest :=
| dest_str (d : arg.str)
| dest_flag (d : arg.flag)
| dest_tokenfile
| dest_help.

#[export] Instance dest_eq_dec : EqDecision dest.
Proof. solve_decision. Defined.

Definition dest_of (a : Action) : dest :=
  match a with
  | _StoreAction _ (type_str d) _ _ _ => dest_str d
  | _StoreAction _ type_is_valid_file _ _ _ => dest_tokenfile
  | _StoreTrueAction _ d => dest_flag d
  | _HelpAction _ => dest_help
  end.

Definition option_strings_of (a : Action) : list string :=
  match a with
  | _StoreAction fl _ _ _ _ => fl
  | _StoreTrueAction fl _ => fl
  | _HelpAction fl => fl
  end.

(** ['/'.join(option_strings)] *)
Fixpoint action_name (option_strings : list string) : string :=
  match option_strings with
  | [] => ""
  | [f] => f
  | f :: fl => f +:+ "/" +:+ action_name fl
  end.

(** The command line as [argparse] splits it: an option string (an
    abbreviation counts as the option it abbreviates) with the arguments
    attached to it, or a word that belongs to no option. *)
Inductive token :=
| Opt (option_string : string) (args : list string)
| Extra (word : string).

Fixpoint find_action (parser : ArgumentParser) (option_string : string) : option Action :=
  match parser with
  | [] => None
  | a :: parser' =>
      if existsb (String.eqb option_string) (option_strings_of a) then Some a
      else find_action parser' option_string
  end.

Definition set_str (d : arg.str) (v : option string) (ns : Namespace) : Namespace :=
  {| str_attr := fun d' => if decide (d' = d) then v else str_attr ns d';
     flag_attr := flag_attr ns;
     tokenfile := tokenfile ns |}.

Definition set_flag (d : arg.flag) (b : bool) (ns : Namespace) : Namespace :=
  {| str_attr := str_attr ns;
     flag_attr := fun d' => if decide (d' = d) then b else flag_attr ns d';
     tokenfile := tokenfile ns |}.

Definition set_tokenfile (f : option TextIOWrapper) (ns : Namespace) : Namespace :=
  {| str_attr := str_attr ns; flag_attr := flag_attr ns; tokenfile := f |}.

Definition empty_namespace : Namespace :=
  {| str_attr := fun _ => None; flag_attr := fun _ => false; tokenfile := None |}.

(** Every attribute starts at its default.  A string default of
    [--tokenfile] is converted after the command line is consumed; until
    then nothing reads the attribute, which is left at [None] here. *)
Definition add_default (ns : Namespace) (a : Action) : Namespace :=
  match a with
  | _StoreAction _ (type_str d) dflt _ _ => set_str d dflt ns
  | _StoreAction _ type_is_valid_file _ _ _ => ns
  | _StoreTrueAction _ d => set_flag d false ns
  | _HelpAction _ => ns
  end.

Definition initial_namespace (parser : ArgumentParser) : Namespace :=
  fold_left add_default parser empty_namespace.

Section Program.
Context {W : Type} (E : Env W).

Abbreviation M := (M W).

Definition take_action (a : Action) (option_string : string) (args : list string)
    (ns : Namespace) : M Namespace :=
  match a with
  | _StoreAction _ ty _ _ choices =>
      match args with
      | [arg_string] =>
          match ty with
          | type_str d =>
              match choices with
              | Some allowed =>
                  if existsb (String.eqb arg_string) allowed
                  then ret (set_str d (Some arg_string) ns)
                  else parser_error (invalid_choice option_string arg_string)
              | None => ret (set_str d (Some arg_string) ns)
              end
          | type_is_valid_file =>
              f <- is_valid_file E arg_string ;;
              match choices with
              | Some _ => parser_error (invalid_choice option_string arg_string)
              | None => ret (set_tokenfile (Some f) ns)
              end
          end
      | _ => parser_error (expected_one_argument option_string)
      end
  | _StoreTrueAction _ d =>
      match args with
      | [] => ret (set_flag d true ns)
      | _ => parser_error (ignored_explicit_argument option_string)
      end
  | _HelpAction _ =>
      match args with
      | [] => emit Help ;; exit 0
      | _ => parser_error (ignored_explicit_argument option_string)
      end
  end.

(** The options are taken in the order of the command line; what no
    action claims is collected. *)
Fixpoint consume (parser : ArgumentParser) (argv : list token)
    (ns : Namespace) (seen_actions : list dest) (extras : list string)
    : M (Namespace * list dest * list string) :=
  match argv with
  | [] => ret (ns, seen_actions, extras)
  | Extra word :: argv' => consume parser argv' ns seen_actions (extras ++ [word])
  | Opt option_string args :: argv' =>
      match find_action parser option_string with
      | None => consume parser argv' ns seen_actions (extras ++ option_string :: args)
      | Some a =>
          ns' <- take_action a option_string args ns ;;
          consume parser argv' ns' (seen_actions ++ [dest_of a]) extras
      end
  end.

(** After the command line: the actions not seen are collected when
    required, and have a string default converted otherwise. *)
Fixpoint convert_defaults (actions : list Action) (seen_actions : list dest)
    (ns : Namespace) (required_actions : list string) : M (Namespace * list string) :=
  match actions with
  | [] => ret (ns, required_actions)
  | a :: actions' =>
      if decide (dest_of a ∈ seen_actions)
      then convert_defaults actions' seen_actions ns required_actions
      else
        match a with
        | _StoreAction fl _ _ true _ =>
            convert_defaults actions' seen_actions ns (required_actions ++ [action_name fl])
        | _StoreAction _ type_is_valid_file (Some path) false _ =>
            f <- is_valid_file E path ;;
            convert_defaults actions' seen_actions (set_tokenfile (Some f) ns) required_actions
        | _ => convert_defaults actions' seen_actions ns required_actions
        end
  end.

Definition parse_args (parser : ArgumentParser) (argv : list token) : M Namespace :=
  consumed <- consume parser argv (initial_namespace parser) [] [] ;;
  let '(ns, seen_actions, extras) := consumed in
  converted <- convert_defaults parser seen_actions ns [] ;;
  let '(ns, required_actions) := converted in
  match required_actions with
  | _ :: _ => parser_error (required_missing required_actions)
  | [] =>
      match extras with
      | _ :: _ => parser_error (unrecognized extras)
      | [] => ret ns
      end
  end.

Definition setup_parser (defaults : gmap string string) : ArgumentParser :=
  [ _HelpAction ["-h"; "--help"];
    _StoreAction ["--config"] (type_str arg.config) (Some DEFAULT_CONFIG_FILE) false None;
    _StoreTrueAction ["-d"; "--debug"] arg.debug;
    (* Site override arguments *)
    _StoreAction ["--siteurl"] (type_str arg.siteurl) (defaults !! "siteurl") false None;
    _StoreAction ["--port"] (type_str arg.port)
      (Some (default DEFAULT_PORT (defaults !! "port"))) false None;
    _StoreAction ["--scheme"] (type_str arg.scheme)
      (Some (default DEFAULT_SCHEME (defaults !! "scheme"))) false (Some ["http"; "https"]);
    _StoreAction ["--tokenfile"] type_is_valid_file (defaults !! "tokenfile") false None;
    (* User task arguments *)
    _StoreAction ["-e"; "--useremail"] (type_str arg.useremail) None true None;
    _StoreTrueAction ["--forcelogout"] arg.forcelogout;
    _StoreTrueAction ["--disableuser"] arg.disableuser;
    _StoreTrueAction ["--enableuser"] arg.enableuser;
    _StoreAction ["--newnickname"] (type_str arg.newnickname) None false None;
    _StoreTrueAction ["--removenickname"] arg.removenickname;
    _StoreAction ["--teamadd"] (type_str arg.teamadd) None false None;
    _StoreAction ["--teamremove"] (type_str arg.teamremove) None false None;
    _StoreAction ["--channeladd"] (type_str arg.channeladd) None false None;
    _StoreAction ["--channelremove"] (type_str arg.channelremove) None false None;
    _StoreAction ["--team"] (type_str arg.team) None false None ].

(** *** Validation *)

Definition validate_args (args : Namespace) : M unit :=
  debug_print [Lit "Using Mattermost instance at "; Show (attr args arg.scheme); Lit "://";
               Show (attr args arg.siteurl); Lit ":"; Show (attr args arg.port)] ;;
  (if negb (truthy (attr args arg.siteurl)) || negb (truthy (attr args arg.port))
      || negb (truthy (attr args arg.scheme)) || negb (truthy (attr_tokenfile args))
   then
     print_error [Lit "Site URL, port, HTTP scheme and token file are all required parameter!"] ;;
     exit 1
   else ret tt) ;;
  (if flag_attr args arg.forcelogout
      || flag_attr args arg.disableuser
      || truthy (attr args arg.newnickname)
      || flag_attr args arg.enableuser
      || truthy (attr args arg.newnickname)
      || flag_attr args arg.removenickname
      || truthy (attr args arg.teamadd)
      || truthy (attr args arg.teamremove)
      || truthy (attr args arg.channeladd)
      || truthy (attr args arg.channelremove)
   then
     (* These options all require a user email *)
     if negb (truthy (attr args arg.useremail)) then
       print_error [Lit "User email required!"] ;;
       exit 2
     else ret tt
   else ret tt) ;;
  (if truthy (attr args arg.channeladd) || truthy (attr args arg.channelremove)
   then
     (* These arguments also require a Team name *)
     if negb (truthy (attr args arg.team)) then
       print_error [Lit "A team name is required when performing channel operations!"] ;;
       exit 3
     else ret tt
   else ret tt) ;;
  ret tt.

(** *** The action functions *)

Definition force_user_logout (mm : Driver) (email : value) : M bool :=
  enter (call_force_user_logout email) ;;
  print_info [Lit "Logging out user: "; Show email] ;;
  user <- request E mm (users_get_user_by_email email) ;;
  if negb (truthy user) then
    print_warn [Lit "User '"; Show email; Lit "' not found!"] ;;
    ret false
  else
    user_id <- subscript user "id" ;;
    response <- request E mm (users_revoke_all_user_sessions user_id) ;;
    debug_print [Show response] ;;
    status <- subscript response "status" ;;
    if negb (eq_str status "OK") then
      print_warn [Lit "Failed to logout user: "; Show email] ;;
      ret false
    else
      print_info [Lit "User '"; Show email; Lit "' logged out!"] ;;
      ret true.

Definition disable_user (mm : Driver) (email : value) (revert : bool) : M bool :=
  enter (call_disable_user email revert) ;;
  payload <- (if revert then
                print_info [Lit "Re-enabling user: "; Show email] ;;
                ret (VDict [("active", VBool true)])
              else
                print_info [Lit "Disabling user: "; Show email] ;;
                ret (VDict [("active", VBool false)])) ;;
  user <- request E mm (users_get_user_by_email email) ;;
  if negb (truthy user) then
    print_warn [Lit "User '"; Show email; Lit "' not found!"] ;;
    ret false
  else
    user_id <- subscript user "id" ;;
    response <- request E mm (users_update_user_active_status user_id payload) ;;
    debug_print [Show response] ;;
    status <- subscript response "status" ;;
    if negb (eq_str status "OK") then
      print_warn [Lit "Failed to update user: "; Show email] ;;
      ret false
    else
      print_info [Lit "User '"; Show email; Lit "' updated successfully!"] ;;
      ret true.

Definition new_nickname (mm : Driver) (email : value) (newnickname : string) : M bool :=
  enter (call_new_nickname email newnickname) ;;
  print_info [Lit "Setting new nickname for user: "; Show email; Lit " to '";
              Lit newnickname; Lit "'"] ;;
  user <- request E mm (users_get_user_by_email email) ;;
  if negb (truthy user) then
    print_warn [Lit "User '"; Show email; Lit "' not found!"] ;;
    ret false
  else
    user_id <- subscript user "id" ;;
    response <- request E mm (users_patch_user user_id (VDict [("nickname", VStr newnickname)])) ;;
    debug_print [Show response] ;;
    nickname <- subscript response "nickname" ;;
    if negb (eq_str nickname newnickname) then
      print_warn [Lit "Failed to set nickname for user: "; Show email] ;;
      ret false
    else
      print_info [Lit "User '"; Show email; Lit "' nickname updated to '";
                  Lit newnickname; Lit "'!"] ;;
      ret true.

Definition remove_nickname (mm : Driver) (email : value) : M bool :=
  enter (call_remove_nickname email) ;;
  print_info [Lit "Clearing nickname for user: "; Show email] ;;
  user <- request E mm (users_get_user_by_email email) ;;
  if negb (truthy user) then
    print_warn [Lit "User '"; Show email; Lit "' not found!"] ;;
    ret false
  else
    user_id <- subscript user "id" ;;
    response <- request E mm (users_patch_user user_id (VDict [("nickname", VStr "")])) ;;
    debug_print [Show response] ;;
    nickname <- subscript response "nickname" ;;
    if negb (eq_str nickname "") then
      print_warn [Lit "Failed to clear nickname for user: "; Show email] ;;
      ret false
    else
      print_info [Lit "User '"; Show email; Lit "' nickname cleared!"] ;;
      ret true.

Definition add_user_to_team (mm : Driver) (email teamname : value) : M bool :=
  enter (call_add_user_to_team email teamname) ;;
  print_info [Lit "Adding user '"; Show email; Lit "' to team '"; Show teamname; Lit "'"] ;;
  (* To start with, we need the ID of the user *)
  user <- request E mm (users_get_user_by_email email) ;;
  if negb (truthy user) then
    print_warn [Lit "User '"; Show email; Lit "' not found!"] ;;
    ret false
  else
    user_id <- subscript user "id" ;;
    (* Now we need the ID of the Team *)
    team <- request E mm (teams_get_team_by_name teamname) ;;
    if negb (truthy team) then
      print_warn [Lit "Unable to get ID of team: '"; Show teamname] ;;
      ret false
    else
      team_id <- subscript team "id" ;;
      debug_print [Lit "User ID: "; Show user_id; Lit " -- Team ID: "; Show team_id] ;;
      let payload := VDict [("team_id", team_id); ("user_id", user_id)] in
      response <- request E mm (teams_add_user_to_team team_id payload) ;;
      debug_print [Show response] ;;
      (* Only a successful response will contain a "team_id" value in the response *)
      response_team_id <- subscript response "team_id" ;;
      if negb (truthy response_team_id) then
        print_warn [Lit "Failed to add user to team!"] ;;
        ret false
      else
        print_info [Lit "User '"; Show email; Lit "' added to team '"; Show teamname; Lit "'!"] ;;
        ret true.

Definition remove_user_from_team (mm : Driver) (email teamname : value) : M bool :=
  enter (call_remove_user_from_team email teamname) ;;
  print_info [Lit "Removing user '"; Show email; Lit "' from team '"; Show teamname; Lit "'"] ;;
  (* To start with, we need the ID of the user *)
  user <- request E mm (users_get_user_by_email email) ;;
  if negb (truthy user) then
    print_warn [Lit "User '"; Show email; Lit "' not found!"] ;;
    ret false
  else
    user_id <- subscript user "id" ;;
    (* Now we need the ID of the Team *)
    team <- request E mm (teams_get_team_by_name teamname) ;;
    if negb (truthy team) then
      print_warn [Lit "Unable to get ID of team: '"; Show teamname] ;;
      ret false
    else
      team_id <- subscript team "id" ;;
      debug_print [Lit "User ID: "; Show user_id; Lit " -- Team ID: "; Show team_id] ;;
      response <- request E mm (teams_remove_user_from_team team_id user_id) ;;
      debug_print [Show response] ;;
      (* Only a successful response will contain a "status" value in the response *)
      status <- subscript response "status" ;;
      if negb (truthy status) then
        print_warn [Lit "Failed to remove user from team!"] ;;
        ret false
      else
        print_info [Lit "User '"; Show email; Lit "' removed from team '"; Show teamname;
                    Lit "'!"] ;;
        ret true.

(** The converted name, without the debug line. *)
Definition converted_channelname (channelname : string) : string :=
  let lowercase_channelname := str_lower channelname in
  str_replace " " "-" lowercase_channelname.

Definition parse_channel_name (channelname : string) : M string :=
  debug_print [Lit "Converting channel: '"; Lit channelname; Lit "'"] ;;
  ret (converted_channelname channelname).

Definition add_user_to_channel (mm : Driver) (email : value) (channelname : string)
    (teamname : value) : M bool :=
  enter (call_add_user_to_channel email channelname teamname) ;;
  print_info [Lit "Adding user '"; Show email; Lit "' to channel '"; Lit channelname;
              Lit "' in team '"; Show teamname] ;;
  (* To start with, we need the ID of the user *)
  user <- request E mm (users_get_user_by_email email) ;;
  if negb (truthy user) then
    print_warn [Lit "User '"; Show email; Lit "' not found!"] ;;
    ret false
  else
    user_id <- subscript user "id" ;;
    (* Now we need the Channel ID *)
    name <- parse_channel_name channelname ;;
    channel <- request E mm (channels_get_channel_by_name_and_team_name teamname (VStr name)) ;;
    if negb (truthy channel) then
      print_warn [Lit "Unable to retrieve channel!"] ;;
      ret false
    else
      channel_id <- subscript channel "id" ;;
      let payload := VDict [("user_id", user_id)] in
      response <- request E mm (channels_add_user channel_id payload) ;;
      status_code <- get response "status_code" ;;
      if truthy status_code then
        (* There will only be a 'status_code' element if the call fails *)
        print_error [Lit "Failed to add user "; Show email; Lit " to channel: "; Lit channelname] ;;
        ret false
      else
        ret true.

Definition remove_user_from_channel (mm : Driver) (email : value) (channelname : string)
    (teamname : value) : M bool :=
  enter (call_remove_user_from_channel email channelname teamname) ;;
  print_info [Lit "Removing user '"; Show email; Lit "' from team '"; Show teamname; Lit "'"] ;;
  (* To start with, we need the ID of the user *)
  user <- request E mm (users_get_user_by_email email) ;;
  if negb (truthy user) then
    print_warn [Lit "User '"; Show email; Lit "' not found!"] ;;
    ret false
  else
    user_id <- subscript user "id" ;;
    (* Now we need the Channel ID *)
    name <- parse_channel_name channelname ;;
    channel <- request E mm (channels_get_channel_by_name_and_team_name teamname (VStr name)) ;;
    if negb (truthy channel) then
      print_warn [Lit "Unable to retrieve channel!"] ;;
      ret false
    else
      channel_id <- subscript channel "id" ;;
      response <- request E mm (channels_remove_channel_member channel_id user_id) ;;
      status_code <- get response "status_code" ;;
      if truthy status_code then
        (* There will only be a 'status_code' element if the call fails *)
        print_error [Lit "Failed to remove user "; Show email; Lit " from channel: ";
                     Lit channelname] ;;
        ret false
      else
        ret true.

(** *** main *)

(** [if args.d:] for a [type=str] attribute: the body runs with the
    attribute's string when it is neither [None] nor empty. *)
Definition if_set (o : option string) (body : string -> M unit) : M unit :=
  match o with
  | Some s => if truthy (VStr s) then body s else ret tt
  | None => ret tt
  end.

(** Lines 591-625 of [main]: the requested actions. *)
Definition main_actions (mm : Driver) (args : Namespace) : M unit :=
  let useremail := attr args arg.useremail in
  (if flag_attr args arg.forcelogout then
     ok <- force_user_logout mm useremail ;;
     if negb ok then print_warn [Lit "Failed to logout user: "; Show useremail] else ret tt
   else ret tt) ;;
  (if flag_attr args arg.disableuser then
     ok <- disable_user mm useremail false ;;
     if negb ok then print_warn [Lit "Failed to disable user: "; Show useremail] else ret tt
   else ret tt) ;;
  (if flag_attr args arg.enableuser then
     ok <- disable_user mm useremail true ;;
     if negb ok then print_warn [Lit "Failed to enable user: "; Show useremail] else ret tt
   else ret tt) ;;
  if_set (str_attr args arg.newnickname) (fun newnickname =>
     ok <- new_nickname mm useremail newnickname ;;
     if negb ok then print_warn [Lit "Failed to rename user: "; Show useremail] else ret tt) ;;
  (if flag_attr args arg.removenickname then
     ok <- remove_nickname mm useremail ;;
     if negb ok then print_warn [Lit "Failed to remove nickname for user: "; Show useremail]
     else ret tt
   else ret tt) ;;
  if_set (str_attr args arg.teamadd) (fun teamadd =>
     ok <- add_user_to_team mm useremail (VStr teamadd) ;;
     if negb ok then
       print_warn [Lit "Failed to add user '"; Show useremail; Lit "' to team '"; Lit teamadd;
                   Lit "'"]
     else ret tt) ;;
  if_set (str_attr args arg.teamremove) (fun teamremove =>
     ok <- remove_user_from_team mm useremail (VStr teamremove) ;;
     if negb ok then
       print_warn [Lit "Failed to remove user '"; Show useremail; Lit "' from team '";
                   Lit teamremove; Lit "'"]
     else ret tt) ;;
  if_set (str_attr args arg.channeladd) (fun channeladd =>
     ok <- add_user_to_channel mm useremail channeladd (attr args arg.team) ;;
     if negb ok then print_warn [Lit "Failed to add user to channel"] else ret tt) ;;
  if_set (str_attr args arg.channelremove) (fun channelremove =>
     ok <- remove_user_from_channel mm useremail channelremove (attr args arg.team) ;;
     if negb ok then print_warn [Lit "Failed to remove user from channel"] else ret tt) ;;
  ret tt.

(** [f.readline()] on a file just opened: its first line, with the line
    end, or the empty string. *)
Definition readline (f : TextIOWrapper) : string :=
  match file_lines f with
  | [] => ""
  | line :: _ => line
  end.

(** [int(v)] for [v] of type [Optional[str]]. *)
Definition int (v : option string) : M Z :=
  match v with
  | None => raise TypeError
  | Some s =>
      match py_int E s with
      | Some n => ret n
      | None => raise ValueError
      end
  end.

(** Lines 576-627 of [main]: what happens to the parsed arguments. *)
Definition main_with_args (args : Namespace) : M unit :=
  validate_args args ;;
  userToken <- match tokenfile args with
               | Some f => ret (str_strip (readline f))
               | None => raise AttributeError
               end ;;
  debug_print [Lit "User token: "; Lit userToken] ;;
  port_number <- int (str_attr args arg.port) ;;
  dbg <- get_DEBUG ;;
  let mm := {| options := [("url", attr args arg.siteurl);
                           ("port", VInt port_number);
                           ("token", VStr userToken);
                           ("scheme", attr args arg.scheme);
                           ("debug", VBool dbg)] |} in
  request E mm login ;;
  main_actions mm args.

Definition main (argv : list token) : M unit :=
  initial_defaults <- load_site_config E DEFAULT_CONFIG_FILE ;;
  let parser := setup_parser initial_defaults in
  args <- parse_args parser argv ;;
  (if flag_attr args arg.debug then
     set_DEBUG true ;;
     print_info [Lit "Running in DEBUG mode, per command line parameter"]
   else ret tt) ;;
  args <- match str_attr args arg.config with
          | Some config_file =>
              if truthy (VStr config_file) then
                debug_print [Lit "Found updated config: "; Lit config_file] ;;
                new_defaults <- load_site_config E config_file ;;
                (* Update parser *)
                let parser := setup_parser new_defaults in
                parse_args parser argv
              else ret args
          | None => ret args
          end ;;
  main_with_args args.

(** One call of an action function. *)
Definition run_action (mm : Driver) (c : action_call) : M bool :=
  match c with
  | call_force_user_logout email => force_user_logout mm email
  | call_disable_user email revert => disable_user mm email revert
  | call_new_nickname email newnickname => new_nickname mm email newnickname
  | call_remove_nickname email => remove_nickname mm email
  | call_add_user_to_team email teamname => add_user_to_team mm email teamname
  | call_remove_user_from_team email teamname => remove_user_from_team mm email teamname
  | call_add_user_to_channel email channelname teamname =>
      add_user_to_channel mm email channelname teamname
  | call_remove_user_from_channel email channelname teamname =>
      remove_user_from_channel mm email channelname teamname
  end.

End Program.

(** *** Reading a trace *)

Definition call_in (e : event) : option api_call :=
  match e with Call c => Some c | _ => None end.

Definition enter_of (e : event) : option action_call :=
  match e with Enter c => Some c | _ => None end.

(** The requests sent through the client. *)
Definition calls (tr : list event) : list api_call := omap call_in tr.

(** The action functions entered. *)
Definition entered (tr : list event) : list action_call := omap enter_of tr.

(** The lines written to stderr: the warnings and errors. *)
Definition on_stderr (tr : list event) : list text :=
  omap (fun e => match e with Out (Print Stderr t) => Some t | _ => None end) tr.

(** The actions of the command line, in the order of [main]. *)
Inductive action :=
| ForceLogout | DisableUser | EnableUser | NewNickname | RemoveNickname
| TeamAdd | TeamRemove | ChannelAdd | ChannelRemove.

#[export] Instance action_eq_dec : EqDecision action.
Proof. solve_decision. Defined.

Definition action_order : list action :=
  [ForceLogout; DisableUser; EnableUser; NewNickname; RemoveNickname;
   TeamAdd; TeamRemove; ChannelAdd; ChannelRemove].

(** The action is requested: its flag is set, or its option holds a
    non-empty string. *)
Definition requested (args : Namespace) (a : action) : bool :=
  match a with
  | ForceLogout => flag_attr args arg.forcelogout
  | DisableUser => flag_attr args arg.disableuser
  | EnableUser => flag_attr args arg.enableuser
  | NewNickname => truthy (attr args arg.newnickname)
  | RemoveNickname => flag_attr args arg.removenickname
  | TeamAdd => truthy (attr args arg.teamadd)
  | TeamRemove => truthy (attr args arg.teamremove)
  | ChannelAdd => truthy (attr args arg.channeladd)
  | ChannelRemove => truthy (attr args arg.channelremove)
  end.




End userutil.

(** * Vocabulary of the properties *)

Import userutil.
Local Open Scope prog_scope.

(** One of the four site parameters is missing or empty. *)
Definition site_missing (args : Namespace) : bool :=
  negb (truthy (attr args arg.siteurl)) || negb (truthy (attr args arg.port))
  || negb (truthy (attr args arg.scheme)) || negb (truthy (attr_tokenfile args)).

(** Some task is requested on the command line. *)
Definition task_requested (args : Namespace) : bool :=
  existsb (requested args) action_order.

Definition channel_requested (args : Namespace) : bool :=
  requested args ChannelAdd || requested args ChannelRemove.

(** The conversion of one character: lower case, then dash for space. *)
Definition convert_char (c : ascii) : ascii :=
  let l := lower_char c in if Ascii.eqb l " " then "-"%char else l.

(** [v[k]] where it is defined: [v] is a dictionary with the key [k]. *)
Definition item (v : value) (k : string) : option value :=
  match v with
  | VDict d => dict_get d k
  | _ => None
  end.

(** The email address an action function is called with. *)
Definition email_of (c : action_call) : value :=
  match c with
  | call_force_user_logout email
  | call_disable_user email _
  | call_new_nickname email _
  | call_remove_nickname email
  | call_add_user_to_team email _
  | call_remove_user_from_team email _
  | call_add_user_to_channel email _ _
  | call_remove_user_from_channel email _ _ => email
  end.

(** The lookup an action function makes after the user lookup: the team
    for the team functions, the channel for the channel functions. *)
Definition second_lookup (c : action_call) : option api_call :=
  match c with
  | call_add_user_to_team _ teamname
  | call_remove_user_from_team _ teamname => Some (teams_get_team_by_name teamname)
  | call_add_user_to_channel _ channelname teamname
  | call_remove_user_from_channel _ channelname teamname =>
      Some (channels_get_channel_by_name_and_team_name teamname
              (VStr (converted_channelname channelname)))
  | _ => None
  end.

(** The one mutating request of an action function, for the identifier
    of the user and the identifier of the team or channel. *)
Definition mutating_call (c : action_call) (user_id other_id : value) : api_call :=
  match c with
  | call_force_user_logout _ => users_revoke_all_user_sessions user_id
  | call_disable_user _ revert =>
      users_update_user_active_status user_id (VDict [("active", VBool revert)])
  | call_new_nickname _ newnickname =>
      users_patch_user user_id (VDict [("nickname", VStr newnickname)])
  | call_remove_nickname _ => users_patch_user user_id (VDict [("nickname", VStr "")])
  | call_add_user_to_team _ _ =>
      teams_add_user_to_team other_id (VDict [("team_id", other_id); ("user_id", user_id)])
  | call_remove_user_from_team _ _ => teams_remove_user_from_team other_id user_id
  | call_add_user_to_channel _ _ _ =>
      channels_add_user other_id (VDict [("user_id", user_id)])
  | call_remove_user_from_channel _ _ _ => channels_remove_channel_member other_id user_id
  end.

(** The test an action function applies to the response of its mutating
    request; [None] where evaluating the test raises. *)
Definition success_test (c : action_call) (response : value) : option bool :=
  match c with
  | call_force_user_logout _
  | call_disable_user _ _ => (fun status => eq_str status "OK") <$> item response "status"
  | call_new_nickname _ newnickname =>
      (fun nickname => eq_str nickname newnickname) <$> item response "nickname"
  | call_remove_nickname _ => (fun nickname => eq_str nickname "") <$> item response "nickname"
  | call_add_user_to_team _ _ => truthy <$> item response "team_id"
  | call_remove_user_from_team _ _ => truthy <$> item response "status"
  | call_add_user_to_channel _ _ _
  | call_remove_user_from_channel _ _ _ =>
      match response with
      | VDict d => Some (negb (truthy (default VNone (dict_get d "status_code"))))
      | _ => None
      end
  end.

(** [m] leaves the part [f] of the trace as it is. *)
Definition keeps {W X A} (f : event -> option X) (m : M W A) : Prop :=
  forall st, omap f (trace (snd (m st))) = omap f (trace st).

(** [m] extends the part [f] of the trace by [l] when it returns, and by
    an initial segment of [l] when it raises. *)
Definition adds {W X A} (f : event -> option X) (m : M W A) (l : list X) : Prop :=
  forall st,
    match m st with
    | (Ret _, st') => omap f (trace st') = omap f (trace st) ++ l
    | (Raise _, st') =>
        exists l', l' `prefix_of` l /\ omap f (trace st') = omap f (trace st) ++ l'
    end.


Definition is_required (a : Action) : bool :=
  match a with
  | _StoreAction _ _ _ required _ => required
  | _ => false
  end.

(** An option of type [is_valid_file] that is not required and has the
    default [path]. *)
Definition file_option (a : Action) (path : string) : Prop :=
  exists fl choices, a = _StoreAction fl type_is_valid_file (Some path) false choices.

(** None of the option strings occurs on the command line. *)
Definition absent (option_strings : list string) (argv : list token) : bool :=
  forallb (fun t => match t with
                    | Opt f _ => negb (existsb (String.eqb f) option_strings)
                    | Extra _ => true
                    end) argv.

(** The command line does not supply [--useremail]. *)
Definition without_useremail (argv : list token) : bool :=
  absent ["-e"; "--useremail"] argv.

(** The attribute [d] of [ns] holds the argument of an occurrence, on the
    command line, of an option that stores into [d]. *)
Definition supplied (parser : ArgumentParser) (argv : list token) (ns : Namespace)
    (d : arg.str) : Prop :=
  exists f s a,
    Opt f [s] ∈ argv /\ find_action parser f = Some a /\
    dest_of a = dest_str d /\ str_attr ns d = Some s.

(** *** Strings beyond Latin-1

    Python's [str] holds Unicode code points, and [string] above holds
    those below 256.  Here a name is a list of code points, and
    [str.lower()] and [str.isupper()] are given on one code point where
    this development tabulates them: below 256 as [lower_char] and
    [is_upper] have them, and at DOUBLE-STRUCK CAPITAL C (U+2102), an
    upper-case letter without a lower-case form, which [lower()] returns
    as it is.  Elsewhere the table is silent ([None]). *)
Definition double_struck_capital_c : N := 8450.

Definition lower_code_point (c : N) : option N :=
  if (c <? 256)%N then Some (N_of_ascii (lower_char (ascii_of_N c)))
  else if (c =? double_struck_capital_c)%N then Some c
  else None.


(** [channelname.lower().replace(' ', '-')], lines 471 and 472 of
    [parse_channel_name], on code points. *)
Definition converted_code_points (channelname : list N) : option (list N) :=
  lowercase_channelname ← mapM lower_code_point channelname;
  Some (map (fun c => if (c =? 32)%N then 45%N else c) lowercase_channelname).

(** The code points of a [string]. *)
Definition code_points (s : string) : list N :=
  map N_of_ascii (list_ascii_of_string s).

(** *** Sample runs *)

(** The namespace of [-e "" --forcelogout] when the section [Site] of the
    configuration is empty: no site URL, no token file, and an empty user
    email. *)
Definition args_forcelogout_only : Namespace :=
  set_flag arg.forcelogout true
    (set_str arg.useremail (Some "") (initial_namespace (setup_parser ∅))).

Definition sample_config : gmap string string :=
  <["siteurl" := "chat.example.com"]> (<["tokenfile" := "token.txt"]> ∅).

(** A server that knows the user [ann@example.com], finds every team and
    channel, accepts the user operations, and answers the two requests to
    add a member with an error object: status code 403 and a message, no
    [team_id]. *)
Definition sample_respond (mm : Driver) (c : api_call) (w : unit) : value * unit :=
  match c with
  | login => (VDict [("token", VStr "secret")], w)
  | users_get_user_by_email email =>
      (if eq_str email "ann@example.com" then VDict [("id", VStr "u1")] else VNone, w)
  | users_revoke_all_user_sessions _ => (VDict [("status", VStr "OK")], w)
  | users_update_user_active_status _ _ => (VDict [("status", VStr "OK")], w)
  | users_patch_user user_id options => (VDict (("id", user_id) ::
      match options with VDict d => d | _ => [] end), w)
  | teams_get_team_by_name _ => (VDict [("id", VStr "t1")], w)
  | teams_add_user_to_team _ _ =>
      (VDict [("status_code", VInt 403); ("message", VStr "You do not have the appropriate permissions.")], w)
  | teams_remove_user_from_team _ _ => (VDict [("status", VStr "OK")], w)
  | channels_get_channel_by_name_and_team_name _ _ => (VDict [("id", VStr "c1")], w)
  | channels_add_user _ _ =>
      (VDict [("status_code", VInt 403); ("message", VStr "You do not have the appropriate permissions.")], w)
  | channels_remove_channel_member _ _ => (VDict [("status", VStr "OK")], w)
  end.

Definition sample_env : Env unit :=
  {| respond := sample_respond;
     read_config := fun path =>
       if String.eqb path "config.ini" then Some {[ "Site" := sample_config ]} else Some ∅;
     open_file := fun path =>
       if String.eqb path "token.txt" then Some {| file_lines := ["secret" +:+ String "010" ""] |}
       else None;
     py_int := fun s => if String.eqb s "443" then Some 443%Z else None |}.

(** The namespace of [-e ann@example.com] with the sample configuration. *)
Definition sample_args : Namespace :=
  set_tokenfile (Some {| file_lines := ["secret" +:+ String "010" ""] |})
    (set_str arg.useremail (Some "ann@example.com")
       (initial_namespace (setup_parser sample_config))).



(** [--teamadd devs --teamremove devs] *)
Definition args_team_add_remove : Namespace :=
  set_str arg.teamremove (Some "devs") (set_str arg.teamadd (Some "devs") sample_args).


(** The command line [-e ann@example.com --teamadd devs --teamremove devs]. *)
Definition argv_team_add_remove : list token :=
  [Opt "-e" ["ann@example.com"]; Opt "--teamadd" ["devs"]; Opt "--teamremove" ["devs"]].

(** The command line [-e ann@example.com]. *)
Definition argv_email : list token := [Opt "-e" ["ann@example.com"]].

(** The command line [--forcelogout], without a user email. *)
Definition argv_forcelogout : list token := [Opt "--forcelogout" []].

(** The command line [-e "" --forcelogout]. *)
Definition argv_empty_email : list token := [Opt "-e" [""]; Opt "--forcelogout" []].

Definition args_empty_email : Namespace :=
  set_tokenfile (Some {| file_lines := ["secret" +:+ String "010" ""] |})
    (set_flag arg.forcelogout true
       (set_str arg.useremail (Some "")
          (initial_namespace (setup_parser sample_config)))).

Definition sample_mm : Driver :=
  {| options := [("url", VStr "chat.example.com"); ("port", VInt 443);
                 ("token", VStr "secret"); ("scheme", VStr "https");
                 ("debug", VBool false)] |}.

(** *** Vocabulary of the further properties *)

(** [m] keeps [DEBUG] and only appends to the trace, events that satisfy
    [P] under the value of [DEBUG]. *)
Definition logs {W A} (P : bool -> event -> Prop) (m : M W A) : Prop :=
  forall st,
    DEBUG (snd (m st)) = DEBUG st /\
    exists new, trace (snd (m st)) = trace st ++ new /\ Forall (P (DEBUG st)) new.

(** Every exception [m] raises satisfies [P]. *)
Definition raises_only {W A} (P : exn -> Prop) (m : M W A) : Prop :=
  forall st e st', m st = (Raise e, st') -> P e.

(** A line as the four print functions write it: [INFO: ] on stdout,
    [DEBUG: ] on stdout and only in debug mode, [WARNING: ] and [ERROR: ]
    on stderr. *)
Definition line_ok (dbg : bool) (o : output) : bool :=
  match o with
  | Print Stdout (Lit prefix :: _) =>
      String.eqb prefix "INFO: " || dbg && String.eqb prefix "DEBUG: "
  | Print Stderr (Lit prefix :: _) =>
      String.eqb prefix "WARNING: " || String.eqb prefix "ERROR: "
  | _ => false
  end.

(** What the program does once the arguments are parsed: it prints
    lines of the four kinds, sends requests and enters action functions;
    [argparse] is silent. *)
Definition after_parsing (dbg : bool) (e : event) : Prop :=
  match e with
  | Out o => line_ok dbg o = true
  | Call _ | Enter _ => True
  | Usage _ | Help => False
  end.

(** Any event but the login request. *)
Definition not_login (dbg : bool) (e : event) : Prop := e <> Call login.

(** The exceptions of an action function: a subscript or [get] on a
    response or entity that is not a dictionary, or a missing one of the
    fields the functions read. *)
Definition response_error (e : exn) : Prop :=
  e = TypeError \/ e = AttributeError \/
  exists key, e = KeyError key /\ key ∈ ["id"; "status"; "nickname"; "team_id"].

(** The requests of an action function are its lookups, in order, cut
    short where one fails, and then its one mutating request. *)
Definition straight_line (c : action_call) (l : list api_call) : Prop :=
  let user_lookup := users_get_user_by_email (email_of c) in
  l = [user_lookup] \/
  (exists lookup, second_lookup c = Some lookup /\ l = [user_lookup; lookup]) \/
  (exists user_id other_id,
      l = user_lookup ::
          match second_lookup c with Some lookup => [lookup] | None => [] end ++
          [mutating_call c user_id other_id]).

(** The requests of an action function, read off the answers of the
    server: the user lookup; for a user with an [id], the team or channel
    lookup where the action has one; and, once every entity looked up has
    an [id], the mutating request with those identifiers. *)
Definition requests_of {W} (E : Env W) (mm : Driver) (c : action_call) (w : W) :
    list api_call :=
  let user_lookup := users_get_user_by_email (email_of c) in
  let (user, w1) := respond E mm user_lookup w in
  user_lookup ::
  match item user "id" with
  | None => []
  | Some user_id =>
      match second_lookup c with
      | None => [mutating_call c user_id VNone]
      | Some lookup =>
          let (entity, _) := respond E mm lookup w1 in
          lookup ::
          match item entity "id" with
          | None => []
          | Some other_id => [mutating_call c user_id other_id]
          end
      end
  end.

(** The requests of a run of [main]: none, or the login first and only
    once. *)
Definition one_session {W A} (m : M W A) : Prop :=
  forall st,
    calls (trace (snd (m st))) = calls (trace st) \/
    exists rest,
      calls (trace (snd (m st))) = calls (trace st) ++ login :: rest /\ login ∉ rest.

(** A character the conversion of channel names leaves as it is. *)
Definition plain_char (c : ascii) : bool :=
  negb (is_upper c) && negb (Ascii.eqb c " ").

(** The lines a computation of [userutil.py] printed, as [print_utils.py]
    would list them. *)
Definition lines_of (tr : list event) : list output :=
  omap (fun e => match e with Out o => Some o | _ => None end) tr.

(** *** Further sample runs *)

(** A server that answers every request with an error object. *)
Definition error_env : Env unit :=
  {| respond := fun _ _ w => (VDict [("status_code", VInt 404); ("message", VStr "Not found")], w);
     read_config := read_config sample_env;
     open_file := open_file sample_env;
     py_int := py_int sample_env |}.

(** A server that knows the user and finds no team and no channel. *)
Definition lonely_env : Env unit :=
  {| respond := fun _ c w =>
       match c with
       | users_get_user_by_email _ => (VDict [("id", VStr "u1")], w)
       | _ => (VDict [], w)
       end;
     read_config := read_config sample_env;
     open_file := open_file sample_env;
     py_int := py_int sample_env |}.

(** An installation whose [config.ini] has no section [Site]. *)
Definition bare_env : Env unit :=
  {| respond := sample_respond;
     read_config := fun _ => Some ∅;
     open_file := open_file sample_env;
     py_int := py_int sample_env |}.

(** [--port http-alt] on top of the sample arguments. *)
Definition args_bad_port : Namespace :=
  set_str arg.port (Some "http-alt") (set_flag arg.forcelogout true sample_args).

(** The command line [-e ann@example.com --tokenfile nope.txt]. *)
Definition argv_missing_tokenfile : list token :=
  [Opt "-e" ["ann@example.com"]; Opt "--tokenfile" ["nope.txt"]].

(** The section [Site] of a second configuration file. *)
Definition staging_config : gmap string string :=
  <["siteurl" := "staging.example.com"]>
    (<["port" := "8065"]> (<["scheme" := "http"]> (<["tokenfile" := "token.txt"]> ∅))).

(** An installation with a second configuration file, [staging.ini]. *)
Definition staging_env : Env unit :=
  {| respond := sample_respond;
     read_config := fun path =>
       if String.eqb path "staging.ini" then Some {[ "Site" := staging_config ]}
       else read_config sample_env path;
     open_file := open_file sample_env;
     py_int := py_int sample_env |}.

(** The command line [--config staging.ini -e ann@example.com]. *)
Definition argv_staging : list token :=
  [Opt "--config" ["staging.ini"]; Opt "-e" ["ann@example.com"]].

(** Its namespace under the defaults of [config.ini] ... *)
Definition args_staging_first : Namespace :=
  set_tokenfile (Some {| file_lines := ["secret" +:+ String "010" ""] |})
    (set_str arg.useremail (Some "ann@example.com")
       (set_str arg.config (Some "staging.ini")
          (initial_namespace (setup_parser sample_config)))).

(** ... and under the defaults of [staging.ini]. *)
Definition args_staging : Namespace :=
  set_tokenfile (Some {| file_lines := ["secret" +:+ String "010" ""] |})
    (set_str arg.useremail (Some "ann@example.com")
       (set_str arg.config (Some "staging.ini")
          (initial_namespace (setup_parser staging_config)))).

(** A configuration whose token file does not exist. *)
Definition config_missing_tokenfile : gmap string string :=
  <["tokenfile" := "nope.txt"]> sample_config.

(** * Properties *)

(** ** Validation of the arguments *)

Section Validation.
Context {W : Type}.
Implicit Types (args : Namespace) (st : state W).

Lemma task_condition args :
  flag_attr args arg.forcelogout
  || flag_attr args arg.disableuser
  || truthy (attr args arg.newnickname)
  || flag_attr args arg.enableuser
  || truthy (attr args arg.newnickname)
  || flag_attr args arg.removenickname
  || truthy (attr args arg.teamadd)
  || truthy (attr args arg.teamremove)
  || truthy (attr args arg.channeladd)
  || truthy (attr args arg.channelremove) = task_requested args.
Proof.
  unfold task_requested; cbn.
  generalize (flag_attr args arg.forcelogout) (flag_attr args arg.disableuser)
    (flag_attr args arg.enableuser) (flag_attr args arg.removenickname)
    (truthy (attr args arg.newnickname)) (truthy (attr args arg.teamadd))
    (truthy (attr args arg.teamremove)) (truthy (attr args arg.channeladd))
    (truthy (attr args arg.channelremove)).
  intros b1 b2 b3 b4 b5 b6 b7 b8 b9.
  destruct b1, b2, b3, b4, b5, b6, b7, b8, b9; reflexivity.
Qed.

(** The outcome of [validate_args], case by case. *)
Lemma validate_args_outcome args st :
  fst (validate_args args st) =
    if site_missing args then Raise (SystemExit 1)
    else if task_requested args && negb (truthy (attr args arg.useremail))
         then Raise (SystemExit 2)
    else if channel_requested args && negb (truthy (attr args arg.team))
         then Raise (SystemExit 3)
    else Ret tt.
Proof.
  unfold validate_args. rewrite task_condition.
  unfold site_missing, channel_requested, requested.
  generalize (task_requested args)
    (negb (truthy (attr args arg.siteurl)) || negb (truthy (attr args arg.port))
     || negb (truthy (attr args arg.scheme)) || negb (truthy (attr_tokenfile args)))
    (truthy (attr args arg.channeladd) || truthy (attr args arg.channelremove))
    (truthy (attr args arg.useremail)) (truthy (attr args arg.team)).
  intros task site channel email team_name.
  cbv [bind debug_print print_error exit raise emit ret get_DEBUG fst].
  destruct (DEBUG st), site, task, email, channel, team_name; reflexivity.
Qed.

Lemma validate_args_exit_2 args st :
  fst (validate_args args st) = Raise (SystemExit 2) ->
  truthy (attr args arg.useremail) = false.
Proof.
  rewrite validate_args_outcome.
  destruct (site_missing args), (task_requested args), (channel_requested args),
    (truthy (attr args arg.useremail)), (truthy (attr args arg.team)); cbn;
    first [discriminate | reflexivity].
Qed.

Lemma channel_task args : channel_requested args = true -> task_requested args = true.
Proof.
  unfold channel_requested, task_requested; cbn.
  intros [H | H]%orb_true_iff; rewrite H; rewrite ?orb_true_r; reflexivity.
Qed.

(** C2, as the code has it: the three checks are made in order and the
    first that fails decides.  [validate_args] exits with code 1 exactly
    when one of siteurl, port, scheme and tokenfile is missing or empty;
    with code 2 exactly when the site parameters are all there, some task
    is requested and useremail is missing or empty; with code 3 exactly
    when the site parameters and the user email are there, channeladd or
    channelremove is set and team is missing or empty; and it returns
    exactly when none of the three checks fails. *)
Theorem validate_args_exit_codes args st :
  let r := fst (validate_args args st) in
  (r = Raise (SystemExit 1) <-> site_missing args = true) /\
  (r = Raise (SystemExit 2) <->
     site_missing args = false /\ task_requested args = true /\
     truthy (attr args arg.useremail) = false) /\
  (r = Raise (SystemExit 3) <->
     site_missing args = false /\ truthy (attr args arg.useremail) = true /\
     channel_requested args = true /\ truthy (attr args arg.team) = false) /\
  (r = Ret tt <->
     site_missing args = false /\
     (task_requested args = true -> truthy (attr args arg.useremail) = true) /\
     (channel_requested args = true -> truthy (attr args arg.team) = true)).
Proof.
  cbv zeta. rewrite validate_args_outcome.
  pose proof (channel_task args) as Hct.
  destruct (site_missing args), (task_requested args), (channel_requested args),
    (truthy (attr args arg.useremail)), (truthy (attr args arg.team)); cbn;
    repeat split; intros; try discriminate; try reflexivity; try tauto;
    repeat match goal with H : _ /\ _ |- _ => destruct H end;
    try discriminate; try (specialize (Hct eq_refl); discriminate);
    repeat match goal with H : true = true -> _ |- _ => specialize (H eq_refl) end;
    try discriminate.
Qed.

End Validation.

(** C2, as stated, at the arguments of [-e "" --forcelogout] without a
    site URL: a task flag is set and the user email is empty, yet the exit
    code is 1 and not 2, because the site parameters are checked first. *)
Lemma validate_args_site_check_first :
  fst (parse_args sample_env (setup_parser ∅) argv_empty_email (initial_state tt)) =
    Ret args_forcelogout_only /\
  task_requested args_forcelogout_only = true /\
  truthy (attr args_forcelogout_only arg.useremail) = false /\
  fst (validate_args args_forcelogout_only (initial_state tt)) = Raise (SystemExit 1) /\
  fst (validate_args args_forcelogout_only (initial_state tt)) <> Raise (SystemExit 2).
Proof.
  split; [vm_compute; reflexivity |].
  repeat split; try reflexivity. vm_compute. discriminate.
Qed.

(** ** Debug output *)

(** C10: [debug_print] of [print_utils.py] prints the line
    [DEBUG: <msg>] on stdout exactly when the module global [DEBUG] is
    absent or true, and prints nothing otherwise; the module binds no
    [DEBUG], so with its own globals it prints on every call.
    [debug_print] of [userutil.py] prints the line exactly when the
    global [DEBUG] of that module is true, and the module starts with
    [DEBUG = False]: it prints nothing in the initial state. *)
Theorem debug_print_defaults :
  (forall (g : gmap string value) msg,
      print_utils.debug_print g msg = [Print Stdout (Lit "DEBUG: " :: msg)] <->
      g !! "DEBUG" = None \/ exists v, g !! "DEBUG" = Some v /\ truthy v = true) /\
  (forall (g : gmap string value) msg,
      print_utils.debug_print g msg = [] <->
      exists v, g !! "DEBUG" = Some v /\ truthy v = false) /\
  (forall msg,
      print_utils.debug_print print_utils.module_globals msg =
        [Print Stdout (Lit "DEBUG: " :: msg)]) /\
  (forall W msg (st : state W),
      debug_print msg st =
        (Ret tt, if DEBUG st
                 then {| DEBUG := true;
                         trace := trace st ++ [Out (Print Stdout (Lit "DEBUG: " :: msg))];
                         world := world st |}
                 else st)) /\
  (forall W msg (w : W),
      debug_print msg (initial_state w) = (Ret tt, initial_state w)).
Proof.
  split; [|split; [|split; [|split]]].
  - intros g msg. unfold print_utils.debug_print.
    destruct (g !! "DEBUG") as [v|] eqn:Hg; cbn.
    + destruct (truthy v) eqn:Hv; split.
      * intros _. right. exists v. split; [reflexivity | assumption].
      * reflexivity.
      * discriminate.
      * intros [H | (v' & H & Hv')]; [discriminate |]. congruence.
    + split; [intros _; left; reflexivity | reflexivity].
  - intros g msg. unfold print_utils.debug_print.
    destruct (g !! "DEBUG") as [v|] eqn:Hg; cbn.
    + destruct (truthy v) eqn:Hv; split.
      * discriminate.
      * intros (v' & H & Hv'). congruence.
      * intros _. exists v. split; [reflexivity | assumption].
      * reflexivity.
    + split; [discriminate | intros (v' & H & _); discriminate].
  - intros msg. reflexivity.
  - intros W msg st. cbv [debug_print bind get_DEBUG emit ret].
    destruct (DEBUG st) eqn:Hd; cbn; rewrite ?Hd; reflexivity.
  - intros W msg w. reflexivity.
Qed.

(** ** Channel names *)

Lemma str_map_map f g s : str_map f (str_map g s) = str_map (fun c => f (g c)) s.
Proof. induction s as [|c s IH]; cbn; [reflexivity | now rewrite IH]. Qed.

Lemma str_map_ext f g s : (forall c, f c = g c) -> str_map f s = str_map g s.
Proof. intros H. induction s as [|c s IH]; cbn; [reflexivity | now rewrite H, IH]. Qed.


Ltac each_char c :=
  destruct c as [[] [] [] [] [] [] [] []]; vm_compute; reflexivity.




Lemma converted_channelname_chars s :
  converted_channelname s = str_map convert_char s.
Proof. unfold converted_channelname, str_replace, str_lower. now rewrite str_map_map. Qed.

(** ** How the program writes its trace *)

Section Traces.
Context {W : Type} (E : Env W) {X : Type} (f : event -> option X).

Lemma keeps_ret {A} (a : A) : keeps (W:=W) f (ret a).
Proof. intros st. reflexivity. Qed.

Lemma keeps_raise {A} e : keeps (W:=W) (A:=A) f (raise e).
Proof. intros st. reflexivity. Qed.

Lemma keeps_exit {A} n : keeps (W:=W) (A:=A) f (exit n).
Proof. intros st. reflexivity. Qed.

Lemma keeps_bind {A B} (m : M W A) (k : A -> M W B) :
  keeps f m -> (forall a, keeps f (k a)) -> keeps f (bind m k).
Proof.
  intros Hm Hk st. unfold bind. specialize (Hm st).
  destruct (m st) as [[a|e] st1]; cbn in *; [|exact Hm].
  rewrite (Hk a st1). exact Hm.
Qed.

Lemma keeps_emit e : f e = None -> keeps (W:=W) f (emit e).
Proof.
  intros He st. cbn. rewrite omap_app. cbn. rewrite He. apply app_nil_r.
Qed.

Lemma keeps_get_DEBUG : keeps (W:=W) f get_DEBUG.
Proof. intros st. reflexivity. Qed.

Lemma keeps_set_DEBUG b : keeps (W:=W) f (set_DEBUG b).
Proof. intros st. reflexivity. Qed.

Lemma keeps_out o : (forall o, f (Out o) = None) -> keeps (W:=W) f (emit (Out o)).
Proof. intros H. apply keeps_emit, H. Qed.

Lemma keeps_debug_print msg :
  (forall o, f (Out o) = None) -> keeps (W:=W) f (debug_print msg).
Proof.
  intros H. apply keeps_bind; [apply keeps_get_DEBUG|].
  intros []; [apply keeps_out, H | apply keeps_ret].
Qed.

Lemma keeps_subscript v k : keeps (W:=W) f (subscript v k).
Proof.
  destruct v; try apply keeps_raise. cbn.
  destruct (dict_get d k); [apply keeps_ret | apply keeps_raise].
Qed.

Lemma keeps_get v k : keeps (W:=W) f (get v k).
Proof. destruct v; try apply keeps_raise. apply keeps_ret. Qed.

Lemma keeps_request mm c : f (Call c) = None -> keeps f (request E mm c).
Proof.
  intros Hc st. unfold request. destruct (respond E mm c (world st)) as [v w].
  cbn. rewrite omap_app. cbn. rewrite Hc. apply app_nil_r.
Qed.

Lemma keeps_parser_error {A} why :
  f (Usage why) = None -> keeps (W:=W) (A:=A) f (parser_error why).
Proof.
  intros H. apply keeps_bind; [apply keeps_emit, H | intros _; apply keeps_exit].
Qed.




End Traces.

(** ** The actions entered by [main] *)

Ltac keeps_quiet :=
  repeat first
    [ apply keeps_ret | apply keeps_raise | apply keeps_exit
    | apply keeps_get_DEBUG | apply keeps_set_DEBUG
    | apply keeps_debug_print; intros ?; reflexivity
    | apply keeps_out; intros ?; reflexivity
    | apply keeps_subscript | apply keeps_get
    | apply keeps_request; reflexivity
    | apply keeps_bind; [|intros ?]
    | match goal with
      | |- keeps _ (if ?b then _ else _) => destruct b
      | |- keeps _ (match ?o with Some _ => _ | None => _ end) => destruct o
      end ].

Section Actions.
Context {W : Type} (E : Env W).
Implicit Types (args : Namespace) (st : state W) (mm : Driver).

Lemma adds_eq {X A} (f : event -> option X) (m : M W A) l l' :
  adds f m l -> l = l' -> adds f m l'.
Proof. now intros H <-. Qed.








End Actions.




(** ** The requested actions, one after the other *)

Section Sequence.
Context {W : Type} (E : Env W).
Implicit Types (args : Namespace) (st : state W) (mm : Driver).








End Sequence.




(** ** The action functions, step by step *)

Lemma item_truthy v k x : item v k = Some x -> truthy v = true.
Proof. destruct v; try discriminate. destruct d; [discriminate | reflexivity]. Qed.

Lemma subscript_run {W} v k (st : state W) :
  subscript v k st =
    (match item v k with
     | Some x => Ret x
     | None => Raise (match v with VDict _ => KeyError k | _ => TypeError end)
     end, st).
Proof. destruct v; try reflexivity. cbn. destruct (dict_get d k); reflexivity. Qed.

Lemma get_run {W} v k (st : state W) :
  get v k st =
    (match v with
     | VDict d => Ret (default VNone (dict_get d k))
     | _ => Raise AttributeError
     end, st).
Proof. destruct v; reflexivity. Qed.

Lemma eq_str_true v s : eq_str v s = true <-> v = VStr s.
Proof.
  destruct v; cbn; try (split; [discriminate | intros [=]]).
  rewrite String.eqb_eq. split; [now intros -> | now intros [= ->]].
Qed.

Ltac run :=
  cbv [bind ret raise emit enter request debug_print print_info print_warn print_error
       exit get_DEBUG set_DEBUG parse_channel_name];
  cbn [fst snd DEBUG trace world negb].

(** One step of a run: a request whose answer is known is answered, the
    other branching points are split. *)
Ltac exec :=
  repeat (run;
    match goal with
    | H : respond _ _ ?c ?w = _ |- context [respond _ _ ?c ?w] => rewrite H
    | H : truthy ?v = _ |- context [truthy ?v] => rewrite H
    | H : item ?v ?k = _ |- context [item ?v ?k] => rewrite H
    | |- context [subscript ?v ?k ?st] => rewrite (subscript_run v k st)
    | |- context [get ?v ?k ?st] => rewrite (get_run v k st)
    | |- context [respond ?E ?mm ?c ?w] => destruct (respond E mm c w) as [? ?] eqn:?
    | |- context [if DEBUG ?st then _ else _] => destruct (DEBUG st) eqn:?
    | |- context [truthy ?v] => destruct (truthy v) eqn:?
    | |- context [eq_str ?v ?s] => destruct (eq_str v s) eqn:?
    | |- context [match item ?v ?k with _ => _ end] => destruct (item v k) eqn:?
    end);
  run.

Ltac trace_eq :=
  unfold calls, entered, on_stderr;
  rewrite ?omap_app; cbn; rewrite ?app_nil_r, <- ?app_assoc; cbn; try reflexivity.

Section Functions.
Context {W : Type} (E : Env W).
Implicit Types (args : Namespace) (st : state W) (mm : Driver).

(** X16: when the user lookup finds nothing, the action function prints the
    warning, returns [False] and sends nothing but the lookup. *)
Lemma user_not_found mm c st user w1 :
  respond E mm (users_get_user_by_email (email_of c)) (world st) = (user, w1) ->
  truthy user = false ->
  fst (run_action E mm c st) = Ret false /\
  calls (trace (snd (run_action E mm c st))) =
    calls (trace st) ++ [users_get_user_by_email (email_of c)] /\
  on_stderr (trace (snd (run_action E mm c st))) =
    on_stderr (trace st) ++
    [[Lit "WARNING: "; Lit "User '"; Show (email_of c); Lit "' not found!"]].
Proof.
  intros Hu Hf.
  destruct c; cbn [run_action email_of] in *;
    [unfold force_user_logout | unfold disable_user; destruct revert
    | unfold new_nickname | unfold remove_nickname | unfold add_user_to_team
    | unfold remove_user_from_team | unfold add_user_to_channel
    | unfold remove_user_from_channel];
    run; rewrite Hu; run; rewrite Hf; run; repeat split; trace_eq.
Qed.

(** X17: the same for a team that is not found: after the two lookups the
    function warns and returns [False]. *)
Lemma team_not_found mm email teamname st user w1 user_id team w2 :
  respond E mm (users_get_user_by_email email) (world st) = (user, w1) ->
  item user "id" = Some user_id ->
  respond E mm (teams_get_team_by_name teamname) w1 = (team, w2) ->
  truthy team = false ->
  forall f, f = add_user_to_team E \/ f = remove_user_from_team E ->
  fst (f mm email teamname st) = Ret false /\
  calls (trace (snd (f mm email teamname st))) =
    calls (trace st) ++ [users_get_user_by_email email; teams_get_team_by_name teamname] /\
  on_stderr (trace (snd (f mm email teamname st))) =
    on_stderr (trace st) ++
    [[Lit "WARNING: "; Lit "Unable to get ID of team: '"; Show teamname]].
Proof.
  intros Hu Hid Ht Hf f [-> | ->];
    [unfold add_user_to_team | unfold remove_user_from_team];
    pose proof (item_truthy _ _ _ Hid) as Htrue;
    exec; repeat split; trace_eq.
Qed.

(** X18: and for a channel that is not found: after the two lookups the
    function warns and returns [False]. *)
Lemma channel_not_found mm email channelname teamname st user w1 user_id channel w2 :
  respond E mm (users_get_user_by_email email) (world st) = (user, w1) ->
  item user "id" = Some user_id ->
  respond E mm (channels_get_channel_by_name_and_team_name teamname
                  (VStr (converted_channelname channelname))) w1 = (channel, w2) ->
  truthy channel = false ->
  forall f, f = add_user_to_channel E \/ f = remove_user_from_channel E ->
  fst (f mm email channelname teamname st) = Ret false /\
  calls (trace (snd (f mm email channelname teamname st))) =
    calls (trace st) ++
    [users_get_user_by_email email;
     channels_get_channel_by_name_and_team_name teamname
       (VStr (converted_channelname channelname))] /\
  on_stderr (trace (snd (f mm email channelname teamname st))) =
    on_stderr (trace st) ++ [[Lit "WARNING: "; Lit "Unable to retrieve channel!"]].
Proof.
  intros Hu Hid Ht Hf f [-> | ->];
    [unfold add_user_to_channel | unfold remove_user_from_channel];
    pose proof (item_truthy _ _ _ Hid) as Htrue;
    exec; repeat split; trace_eq.
Qed.

(** X19: with the entities resolved, an action function sends its lookups
    and its one mutating request, and then decides by its test on the
    response: it returns the result of the test, with one line on stderr
    when the test fails, and raises when the test cannot be evaluated. *)
Lemma action_outcome mm c st user w1 user_id other_id w2 response w3 :
  respond E mm (users_get_user_by_email (email_of c)) (world st) = (user, w1) ->
  item user "id" = Some user_id ->
  match second_lookup c with
  | Some lookup =>
      exists entity, respond E mm lookup w1 = (entity, w2) /\ item entity "id" = Some other_id
  | None => w2 = w1
  end ->
  respond E mm (mutating_call c user_id other_id) w2 = (response, w3) ->
  calls (trace (snd (run_action E mm c st))) =
    calls (trace st) ++
    users_get_user_by_email (email_of c) ::
    match second_lookup c with Some lookup => [lookup] | None => [] end ++
    [mutating_call c user_id other_id] /\
  match success_test c response with
  | Some true =>
      fst (run_action E mm c st) = Ret true /\
      on_stderr (trace (snd (run_action E mm c st))) = on_stderr (trace st)
  | Some false =>
      fst (run_action E mm c st) = Ret false /\
      exists line, on_stderr (trace (snd (run_action E mm c st))) = on_stderr (trace st) ++ [line]
  | None =>
      exists e, fst (run_action E mm c st) = Raise e /\
      on_stderr (trace (snd (run_action E mm c st))) = on_stderr (trace st)
  end.
Proof.
  intros Hu Hid Hsecond Hr. pose proof (item_truthy _ _ _ Hid) as Htrue.
  destruct c; cbn [run_action email_of second_lookup mutating_call success_test] in *;
    try destruct Hsecond as (entity & Hent & Hoid);
    try pose proof (item_truthy _ _ _ Hoid) as Htrue';
    subst;
    [unfold force_user_logout | unfold disable_user; destruct revert
    | unfold new_nickname | unfold remove_nickname | unfold add_user_to_team
    | unfold remove_user_from_team | unfold add_user_to_channel
    | unfold remove_user_from_channel];
    exec;
    repeat match goal with
           | |- context [match ?v with VNone => _ | _ => _ end] => destruct v; cbn [fmap option_fmap option_map]; run
           end;
    exec; cbn [fmap option_fmap option_map negb];
    rewrite ?Heqb0, ?Heqb1, ?Heqb; cbn [negb];
    (split; [trace_eq |]);
    repeat first [split | eexists]; trace_eq.
Qed.

(** C5: for the user the email resolves to, [disable_user] sends
    [update_user_active_status] with the payload [{'active': False}] when
    [revert] is false and [{'active': True}] when it is true, after the
    lookup and as its only other request; and it returns [True] exactly
    when the response has a [status] field equal to ['OK']. *)
Theorem disable_user_payload mm email (revert : bool) st user w1 user_id response w2 :
  respond E mm (users_get_user_by_email email) (world st) = (user, w1) ->
  item user "id" = Some user_id ->
  respond E mm (users_update_user_active_status user_id (VDict [("active", VBool revert)])) w1
    = (response, w2) ->
  calls (trace (snd (disable_user E mm email revert st))) =
    calls (trace st) ++
    [users_get_user_by_email email;
     users_update_user_active_status user_id (VDict [("active", VBool revert)])] /\
  (fst (disable_user E mm email revert st) = Ret true <->
   item response "status" = Some (VStr "OK")).
Proof.
  intros Hu Hid Hr. pose proof (item_truthy _ _ _ Hid) as Htrue.
  unfold disable_user.
  destruct revert; exec; (split; [trace_eq |]);
    (split; intros Heq; try discriminate; try reflexivity);
    match goal with
    | H : eq_str _ _ = true |- _ => apply eq_str_true in H; subst; reflexivity
    | H : eq_str _ _ = false |- _ => injection Heq as ->; cbn in H; discriminate
    end.
Qed.

End Functions.

Lemma disable_user_payload_witness :
  calls (trace (snd (disable_user sample_env sample_mm (VStr "ann@example.com") false
                       (initial_state tt)))) =
    [users_get_user_by_email (VStr "ann@example.com");
     users_update_user_active_status (VStr "u1") (VDict [("active", VBool false)])] /\
  (fst (disable_user sample_env sample_mm (VStr "ann@example.com") false (initial_state tt))
     = Ret true <->
   item (VDict [("status", VStr "OK")]) "status" = Some (VStr "OK")).
Proof.
  apply (disable_user_payload sample_env sample_mm (VStr "ann@example.com") false
           (initial_state tt) (VDict [("id", VStr "u1")]) tt (VStr "u1")
           (VDict [("status", VStr "OK")]) tt); reflexivity.
Defined.

(** ** Channel names, continued *)






Lemma N_of_ascii_small c : (N_of_ascii c <? 256)%N = true.
Proof. apply N.ltb_lt, N_ascii_bounded. Qed.

(** On the strings of the range, the conversion on code points is
    [converted_channelname]. *)
Lemma converted_code_points_string s :
  converted_code_points (code_points s) = Some (code_points (converted_channelname s)).
Proof.
  unfold converted_code_points.
  assert (H : mapM lower_code_point (code_points s) = Some (code_points (str_lower s))).
  { induction s as [|c s IH]; [reflexivity|].
    cbn. unfold code_points in IH. rewrite IH. cbn.
    unfold lower_code_point. now rewrite N_of_ascii_small, ascii_N_embedding. }
  rewrite H. cbn. f_equal. unfold converted_channelname, str_replace, code_points.
  generalize (str_lower s). intros t.
  induction t as [|c t IH]; [reflexivity|].
  cbn [str_map list_ascii_of_string map]. rewrite IH. f_equal.
  destruct (Ascii.eqb_spec c " ") as [-> | Hc]; [reflexivity|].
  destruct (N.eqb_spec (N_of_ascii c) 32) as [Heq | _]; [|reflexivity].
  exfalso. apply Hc. rewrite <- (ascii_N_embedding c), Heq. reflexivity.
Qed.


(** ** Error responses *)

(** With user and team resolved, [add_user_to_team] returns the truth
    value of the response's [team_id], and raises when the response has
    none. *)
Lemma add_user_to_team_outcome {W} (E : Env W) mm email teamname st
    user w1 user_id team w2 team_id response w3 :
  respond E mm (users_get_user_by_email email) (world st) = (user, w1) ->
  item user "id" = Some user_id ->
  respond E mm (teams_get_team_by_name teamname) w1 = (team, w2) ->
  item team "id" = Some team_id ->
  respond E mm (teams_add_user_to_team team_id
                  (VDict [("team_id", team_id); ("user_id", user_id)])) w2 = (response, w3) ->
  fst (add_user_to_team E mm email teamname st) =
    match item response "team_id" with
    | Some v => Ret (truthy v)
    | None => Raise (match response with VDict _ => KeyError "team_id" | _ => TypeError end)
    end.
Proof.
  intros Hu Hid Ht Htid Hr.
  pose proof (item_truthy _ _ _ Hid) as Htrue.
  pose proof (item_truthy _ _ _ Htid) as Htrue'.
  unfold add_user_to_team. exec; reflexivity.
Qed.

(** C3 at an error response: the server answers the request to add the
    member with an object that has a status code and a message and no
    [team_id].  [add_user_to_team] then raises [KeyError] at
    [response['team_id']]: it returns neither [True] nor [False] and
    prints no failure message.  [add_user_to_channel], which reads the
    response with [get], reports the same answer as a failure. *)
Theorem add_user_to_team_error_response :
  let run := add_user_to_team sample_env sample_mm (VStr "ann@example.com") (VStr "devs")
               (initial_state tt) in
  fst run = Raise (KeyError "team_id") /\
  on_stderr (trace (snd run)) = [] /\
  calls (trace (snd run)) =
    [users_get_user_by_email (VStr "ann@example.com");
     teams_get_team_by_name (VStr "devs");
     teams_add_user_to_team (VStr "t1")
       (VDict [("team_id", VStr "t1"); ("user_id", VStr "u1")])] /\
  let sibling := add_user_to_channel sample_env sample_mm (VStr "ann@example.com")
                   "General" (VStr "devs") (initial_state tt) in
  fst sibling = Ret false /\
  on_stderr (trace (snd sibling)) =
    [[Lit "ERROR: "; Lit "Failed to add user "; Show (VStr "ann@example.com");
      Lit " to channel: "; Lit "General"]].
Proof. repeat split; vm_compute; reflexivity. Qed.

(** C1 at the same error response, on the command line [-e
    ann@example.com --teamadd devs --teamremove devs]: the exception
    leaves [main]; no warning or error is printed, and the removal, which
    was requested, is never attempted. *)
Theorem main_aborts_on_error_response :
  let run := main sample_env argv_team_add_remove (initial_state tt) in
  fst (parse_args sample_env (setup_parser sample_config) argv_team_add_remove
         (initial_state tt)) = Ret args_team_add_remove /\
  fst run = Raise (KeyError "team_id") /\
  on_stderr (trace (snd run)) = [] /\
  requested args_team_add_remove TeamRemove = true /\
  entered (trace (snd run)) =
    [call_add_user_to_team (VStr "ann@example.com") (VStr "devs")].
Proof. repeat split; vm_compute; reflexivity. Qed.

(** ** Parsing the command line *)

Ltac parse_run :=
  cbv [take_action is_valid_file parser_error bind ret raise emit exit];
  cbn [fst snd DEBUG trace world].

Section Parsing.
Context {W : Type} (E : Env W).
Implicit Types (args ns : Namespace) (st : state W) (parser : ArgumentParser)
  (argv : list token) (a : Action).

Lemma find_action_in parser f a :
  find_action parser f = Some a ->
  a ∈ parser /\ existsb (String.eqb f) (option_strings_of a) = true.
Proof.
  induction parser as [|a' parser IH]; cbn; [discriminate|].
  destruct (existsb (String.eqb f) (option_strings_of a')) eqn:Hf.
  - intros [= <-]. split; [left | exact Hf].
  - intros H. destruct (IH H) as [Hin Hex]. split; [now right | exact Hex].
Qed.

Lemma absent_elem fl argv f vs :
  absent fl argv = true -> Opt f vs ∈ argv -> existsb (String.eqb f) fl = false.
Proof.
  unfold absent. rewrite forallb_forall. intros H Hin.
  apply list_elem_of_In in Hin. specialize (H _ Hin). cbn in H.
  now apply negb_true_iff in H.
Qed.

(** What a successful [take_action] does to the namespace. *)
Lemma take_action_ret a f vs ns st ns1 st1 :
  take_action E a f vs ns st = (Ret ns1, st1) ->
  st1 = st /\
  (forall d, dest_of a <> dest_str d -> str_attr ns1 d = str_attr ns d) /\
  (forall d, dest_of a = dest_str d -> exists s, vs = [s] /\ str_attr ns1 d = Some s) /\
  (dest_of a <> dest_tokenfile -> tokenfile ns1 = tokenfile ns).
Proof.
  destruct a as [fl [d0|] dflt req [allowed|] | fl d0 | fl];
    destruct vs as [|v [|v' vs]]; parse_run;
    try discriminate;
    repeat match goal with
           | |- context [existsb ?p ?l] => destruct (existsb p l); parse_run
           | |- context [open_file E ?x] => destruct (open_file E x); parse_run
           end;
    try discriminate; intros [= <- <-]; cbn;
    (split; [reflexivity |]);
    (split; [| split]);
    try (intros d Hd; try discriminate; try reflexivity);
    try congruence.
  all: try (case_decide; [congruence | reflexivity]).
  all: try (injection Hd as <-; exists v; split; [reflexivity |];
            case_decide; [reflexivity | congruence]).
Qed.

(** [argparse] leaves the program only through [SystemExit]. *)
Lemma take_action_raise a f vs ns st e st1 :
  take_action E a f vs ns st = (Raise e, st1) -> exists code, e = SystemExit code.
Proof.
  destruct a as [fl [d0|] dflt req [allowed|] | fl d0 | fl];
    destruct vs as [|v [|v' vs]]; parse_run;
    repeat match goal with
           | |- context [existsb ?p ?l] => destruct (existsb p l); parse_run
           | |- context [open_file E ?x] => destruct (open_file E x); parse_run
           end;
    try discriminate; intros [= <- _]; eauto.
Qed.

Lemma consume_raise parser argv ns seen extras st e st1 :
  consume E parser argv ns seen extras st = (Raise e, st1) ->
  exists code, e = SystemExit code.
Proof.
  revert ns seen extras st.
  induction argv as [|[f vs|w] argv IH]; intros ns seen extras st; cbn [consume].
  - discriminate.
  - destruct (find_action parser f) as [a|]; [|apply IH].
    unfold bind at 1.
    destruct (take_action E a f vs ns st) as [[ns1|e1] st2] eqn:Ht.
    + apply IH.
    + intros [= <- _]. eapply take_action_raise, Ht.
  - apply IH.
Qed.

Lemma consume_ret parser argv0 argv :
  forall ns seen extras st ns' seen' extras' st',
  (forall t, t ∈ argv -> t ∈ argv0) ->
  consume E parser argv ns seen extras st = (Ret (ns', seen', extras'), st') ->
  (forall x, x ∈ seen -> x ∈ seen') /\
  (forall x, x ∈ seen' ->
     x ∈ seen \/
     exists f vs a, Opt f vs ∈ argv /\ find_action parser f = Some a /\ dest_of a = x) /\
  (forall d, dest_str d ∉ seen' -> str_attr ns' d = str_attr ns d) /\
  (dest_tokenfile ∉ seen' -> tokenfile ns' = tokenfile ns) /\
  ((forall d, dest_str d ∈ seen -> supplied parser argv0 ns d) ->
   forall d, dest_str d ∈ seen' -> supplied parser argv0 ns' d).
Proof.
  induction argv as [|[f vs|w] argv IH];
    intros ns seen extras st ns' seen' extras' st' Hsub Hc; cbn [consume] in Hc.
  - injection Hc as <- <- <- <-. repeat split; auto.
  - assert (Hsub' : forall t, t ∈ argv -> t ∈ argv0)
      by (intros t Ht; apply Hsub; now right).
    destruct (find_action parser f) as [a|] eqn:Hfind.
    + unfold bind at 1 in Hc.
      destruct (take_action E a f vs ns st) as [[ns1|e1] st2] eqn:Ht; [|discriminate].
      apply take_action_ret in Ht as (-> & Hother & Hsame & Hfile).
      apply IH in Hc as (M1 & M2 & M3 & M4 & M5); [|exact Hsub'].
      assert (Hseen : dest_of a ∈ seen').
      { apply M1, elem_of_app. right. now left. }
      split; [|split; [|split; [|split]]].
      * intros x Hx. apply M1, elem_of_app. now left.
      * intros x Hx. destruct (M2 x Hx) as [[Hin | Hin]%elem_of_app | (f' & vs' & a' & Hin & H')].
        -- now left.
        -- apply list_elem_of_singleton in Hin as ->. right.
           exists f, vs, a. split; [now left | split; [exact Hfind | reflexivity]].
        -- right. exists f', vs', a'. split; [now right | exact H'].
      * intros d Hd. rewrite (M3 d Hd). apply Hother. intros Heq. apply Hd.
        now rewrite <- Heq.
      * intros Hd. rewrite (M4 Hd). apply Hfile. intros Heq. apply Hd.
        now rewrite <- Heq.
      * intros Hinv. apply M5. intros d [Hd | Hd]%elem_of_app.
        -- destruct (decide (dest_of a = dest_str d)) as [Heq | Hne].
           ++ destruct (Hsame d Heq) as (s & -> & Hs).
              exists f, s, a. split; [apply Hsub; now left | auto].
           ++ destruct (Hinv d Hd) as (f' & s & a' & Hin & Hf' & Ha' & Hs).
              exists f', s, a'. rewrite (Hother d Hne). auto.
        -- apply list_elem_of_singleton in Hd.
           destruct (Hsame d (eq_sym Hd)) as (s & -> & Hs).
           exists f, s, a. split; [apply Hsub; now left | auto].
    + apply IH in Hc as (M1 & M2 & M3 & M4 & M5); [|exact Hsub'].
      split; [exact M1 | split; [| split; [exact M3 | split; [exact M4 | exact M5]]]].
      intros x Hx. destruct (M2 x Hx) as [Hin | (f' & vs' & a' & Hin & H')]; [now left|].
      right. exists f', vs', a'. split; [now right | exact H'].
  - assert (Hsub' : forall t, t ∈ argv -> t ∈ argv0)
      by (intros t Ht; apply Hsub; now right).
    apply IH in Hc as (M1 & M2 & M3 & M4 & M5); [|exact Hsub'].
    split; [exact M1 | split; [| split; [exact M3 | split; [exact M4 | exact M5]]]].
    intros x Hx. destruct (M2 x Hx) as [Hin | (f' & vs' & a' & Hin & H')]; [now left|].
    right. exists f', vs', a'. split; [now right | exact H'].
Qed.

Lemma is_valid_file_run path st :
  is_valid_file E path st =
    match open_file E path with
    | Some f => (Ret f, st)
    | None =>
        (Raise (SystemExit 2),
         {| DEBUG := DEBUG st;
            trace := trace st ++
                     [Usage (user_error [Lit "The file "; Lit path; Lit " does not exist!"])];
            world := world st |})
    end.
Proof. unfold is_valid_file. destruct (open_file E path); reflexivity. Qed.

Lemma convert_defaults_raise actions seen ns req st e st1 :
  convert_defaults E actions seen ns req st = (Raise e, st1) ->
  exists code, e = SystemExit code.
Proof.
  revert ns req st.
  induction actions as [|a actions IH]; intros ns req st; cbn [convert_defaults].
  - discriminate.
  - case_decide; [apply IH|].
    destruct a as [fl [d0|] [path|] [|] ch | fl d0 | fl]; try apply IH.
    unfold bind at 1. rewrite is_valid_file_run.
    destruct (open_file E path); [apply IH | intros [= <- _]; eauto].
Qed.

Lemma convert_defaults_ret actions :
  forall seen ns req st ns' req' st',
  convert_defaults E actions seen ns req st = (Ret (ns', req'), st') ->
  (forall d, str_attr ns' d = str_attr ns d) /\
  (forall x, x ∈ req -> x ∈ req') /\
  (forall a, a ∈ actions -> is_required a = true -> dest_of a ∉ seen ->
     action_name (option_strings_of a) ∈ req') /\
  (tokenfile ns' = tokenfile ns \/
   exists a path f, a ∈ actions /\ file_option a path /\ open_file E path = Some f /\
                    tokenfile ns' = Some f) /\
  (dest_tokenfile ∉ seen -> (exists a path, a ∈ actions /\ file_option a path) ->
   exists a path f, a ∈ actions /\ file_option a path /\ open_file E path = Some f /\
                    tokenfile ns' = Some f).
Proof.
  induction actions as [|a actions IH]; intros seen ns req st ns' req' st' Hc;
    cbn [convert_defaults] in Hc.
  - injection Hc as <- <- <-. repeat split; auto.
    + intros a Ha. now apply elem_of_nil in Ha.
    + intros _ (a & path & Ha & _). now apply elem_of_nil in Ha.
  - assert (Hskip : forall ns1 req1 st1,
      convert_defaults E actions seen ns1 req1 st1 = (Ret (ns', req'), st') ->
      (forall d, str_attr ns1 d = str_attr ns d) -> tokenfile ns1 = tokenfile ns ->
      (forall x, x ∈ req -> x ∈ req1) ->
      (is_required a = true -> dest_of a ∉ seen -> action_name (option_strings_of a) ∈ req1) ->
      (dest_tokenfile ∉ seen -> forall path, ~ file_option a path) ->
      (forall d, str_attr ns' d = str_attr ns d) /\
      (forall x, x ∈ req -> x ∈ req') /\
      (forall a0, a0 ∈ a :: actions -> is_required a0 = true -> dest_of a0 ∉ seen ->
         action_name (option_strings_of a0) ∈ req') /\
      (tokenfile ns' = tokenfile ns \/
       exists a0 path f, a0 ∈ a :: actions /\ file_option a0 path /\
                         open_file E path = Some f /\ tokenfile ns' = Some f) /\
      (dest_tokenfile ∉ seen -> (exists a0 path, a0 ∈ a :: actions /\ file_option a0 path) ->
       exists a0 path f, a0 ∈ a :: actions /\ file_option a0 path /\
                         open_file E path = Some f /\ tokenfile ns' = Some f)).
    { intros ns1 req1 st1 Hc1 Hstr Hfile Hreq Hhead Hnofile.
      apply IH in Hc1 as (N1 & N2 & N3 & N4 & N5).
      split; [intros d; now rewrite N1 |].
      split; [intros x Hx; apply N2, Hreq, Hx |].
      split.
      { intros a0 [-> | Hin]%elem_of_cons Hr Hs; [apply N2, Hhead; assumption |].
        now apply N3. }
      split.
      { destruct N4 as [N4 | (a0 & path & f & Hin & H')].
        - left. now rewrite N4.
        - right. exists a0, path, f. split; [now right | exact H']. }
      intros Hs (a0 & path & [-> | Hin]%elem_of_cons & Hfo).
      - exfalso. exact (Hnofile Hs path Hfo).
      - destruct (N5 Hs (ex_intro _ a0 (ex_intro _ path (conj Hin Hfo))))
          as (a1 & path1 & f & Hin1 & H').
        exists a1, path1, f. split; [now right | exact H']. }
    case_decide as Hseen.
    + apply (Hskip _ _ _ Hc); auto.
      * intros _ Hn. contradiction.
      * intros Hs path (fl & ch & ->). cbn in Hseen. contradiction.
    + destruct a as [fl [d0|] [path|] [|] ch | fl d0 | fl];
        try solve
          [ apply (Hskip _ _ _ Hc);
            [ intros; reflexivity
            | reflexivity
            | intros x Hx; try (apply elem_of_app; left); exact Hx
            | intros Hr _; try discriminate Hr; apply elem_of_app; right; now left
            | intros _ path' (fl' & ch' & [=]) ] ].
      unfold bind at 1 in Hc. rewrite is_valid_file_run in Hc.
      destruct (open_file E path) as [f|] eqn:Hopen; [|discriminate].
      apply IH in Hc as (N1 & N2 & N3 & N4 & N5). cbn [str_attr set_tokenfile] in N1.
      assert (Hhere : exists a0 path0 f0,
                 a0 ∈ _StoreAction fl type_is_valid_file (Some path) false ch :: actions /\
                 file_option a0 path0 /\ open_file E path0 = Some f0 /\
                 tokenfile ns' = Some f0).
      { destruct N4 as [N4 | (a0 & path0 & f0 & Hin & H')].
        - exists (_StoreAction fl type_is_valid_file (Some path) false ch), path, f.
          split; [now left |]. split; [now exists fl, ch |]. split; [exact Hopen | exact N4].
        - exists a0, path0, f0. split; [now right | exact H']. }
      split; [exact N1 |]. split; [exact N2 |].
      split.
      { intros a0 [-> | Hin]%elem_of_cons Hr Hs; [discriminate | now apply N3]. }
      split; [right; exact Hhere | intros _ _; exact Hhere].
Qed.

Lemma parse_args_raise parser argv st e st1 :
  parse_args E parser argv st = (Raise e, st1) -> exists code, e = SystemExit code.
Proof.
  unfold parse_args. unfold bind at 1.
  destruct (consume E parser argv (initial_namespace parser) [] [] st)
    as [[[[ns seen] extras]|e1] st2] eqn:Hc.
  - unfold bind at 1.
    destruct (convert_defaults E parser seen ns [] st2) as [[[ns' req]|e1] st3] eqn:Hd.
    + destruct req; [destruct extras |]; parse_run; try discriminate; intros [= <- _]; eauto.
    + intros [= <- _]. eapply convert_defaults_raise, Hd.
  - intros [= <- _]. eapply consume_raise, Hc.
Qed.

Lemma parse_args_ret parser argv st args st1 :
  parse_args E parser argv st = (Ret args, st1) ->
  exists ns seen st2,
    consume E parser argv (initial_namespace parser) [] [] st = (Ret (ns, seen, []), st2) /\
    convert_defaults E parser seen ns [] st2 = (Ret (args, []), st1).
Proof.
  unfold parse_args. unfold bind at 1.
  destruct (consume E parser argv (initial_namespace parser) [] [] st)
    as [[[[ns seen] extras]|e1] st2] eqn:Hc; [|discriminate].
  unfold bind at 1.
  destruct (convert_defaults E parser seen ns [] st2) as [[[ns' req]|e1] st3] eqn:Hd;
    [|discriminate].
  destruct req; [destruct extras |]; parse_run; try discriminate.
  intros [= <- <-]. exists ns, seen, st2. split; [reflexivity | exact Hd].
Qed.

Lemma keeps_is_valid_file {X} (f : event -> option X) path :
  (forall why, f (Usage why) = None) -> keeps f (is_valid_file E path).
Proof.
  intros Hf. unfold is_valid_file.
  destruct (open_file E path); [apply keeps_ret | apply keeps_parser_error, Hf].
Qed.

Lemma keeps_take_action {X} (f : event -> option X) a o vs ns :
  (forall why, f (Usage why) = None) -> f Help = None ->
  keeps f (take_action E a o vs ns).
Proof.
  intros Hf Hh.
  destruct a as [fl [d0|] dflt req [allowed|] | fl d0 | fl];
    destruct vs as [|v [|v' vs]]; cbn [take_action];
    repeat first
      [ apply keeps_ret | apply keeps_exit | apply keeps_parser_error, Hf
      | apply keeps_is_valid_file, Hf | apply keeps_emit, Hh
      | apply keeps_bind; [|intros ?]
      | match goal with |- keeps _ (if ?b then _ else _) => destruct b end ].
Qed.

Lemma keeps_consume {X} (f : event -> option X) parser argv :
  (forall why, f (Usage why) = None) -> f Help = None ->
  forall ns seen extras, keeps f (consume E parser argv ns seen extras).
Proof.
  intros Hf Hh. induction argv as [|[o vs|w] argv IH]; intros ns seen extras;
    cbn [consume].
  - apply keeps_ret.
  - destruct (find_action parser o); [|apply IH].
    apply keeps_bind; [now apply keeps_take_action | intros ns'; apply IH].
  - apply IH.
Qed.

Lemma keeps_convert_defaults {X} (f : event -> option X) actions seen :
  (forall why, f (Usage why) = None) ->
  forall ns req, keeps f (convert_defaults E actions seen ns req).
Proof.
  intros Hf. induction actions as [|a actions IH]; intros ns req;
    cbn [convert_defaults].
  - apply keeps_ret.
  - case_decide; [apply IH|].
    destruct a as [fl [d0|] [path|] [|] ch | fl d0 | fl]; try apply IH.
    apply keeps_bind; [now apply keeps_is_valid_file | intros fh; apply IH].
Qed.

Lemma keeps_parse_args {X} (f : event -> option X) parser argv :
  (forall why, f (Usage why) = None) -> f Help = None ->
  keeps f (parse_args E parser argv).
Proof.
  intros Hf Hh. unfold parse_args.
  apply keeps_bind; [now apply keeps_consume | intros [[ns seen] extras]].
  apply keeps_bind; [now apply keeps_convert_defaults | intros [ns' req]].
  destruct req; [destruct extras |];
    first [apply keeps_ret | apply keeps_parser_error, Hf].
Qed.

Lemma keeps_load_site_config {X} (f : event -> option X) path :
  keeps f (load_site_config E path).
Proof.
  unfold load_site_config. destruct (read_config E path) as [config|];
    [destruct (config !! "Site") |]; first [apply keeps_ret | apply keeps_raise].
Qed.

(** *** The parser of [setup_parser] *)

Ltac in_parser H :=
  unfold setup_parser in H; rewrite !elem_of_cons, elem_of_nil in H;
  repeat destruct H as [H | H]; try contradiction; subst.

(** No two options of the parser store into the same attribute. *)
Lemma setup_parser_dest defaults a a' :
  a ∈ setup_parser defaults -> a' ∈ setup_parser defaults ->
  dest_of a = dest_of a' -> a = a'.
Proof.
  intros Ha Ha' Hd. in_parser Ha; in_parser Ha'; cbn in Hd;
    first [reflexivity | discriminate].
Qed.

Lemma not_supplied defaults argv a' x :
  a' ∈ setup_parser defaults ->
  absent (option_strings_of a') argv = true ->
  (exists f vs a, Opt f vs ∈ argv /\ find_action (setup_parser defaults) f = Some a /\
                  dest_of a = x) ->
  x <> dest_of a'.
Proof.
  intros Ha' Habs (f & vs & a & Hin & Hfind & <-) Heq.
  apply find_action_in in Hfind as [Ha Hex].
  rewrite (setup_parser_dest defaults a a' Ha Ha' Heq) in Hex.
  rewrite (absent_elem _ _ _ _ Habs Hin) in Hex. discriminate.
Qed.

Lemma useremail_in_parser defaults :
  _StoreAction ["-e"; "--useremail"] (type_str arg.useremail) None true None
    ∈ setup_parser defaults.
Proof. unfold setup_parser. repeat (first [now left | right]). Qed.

Lemma useremail_seen defaults argv st ns seen extras st1 ns' st2 :
  consume E (setup_parser defaults) argv (initial_namespace (setup_parser defaults)) [] [] st
    = (Ret (ns, seen, extras), st1) ->
  convert_defaults E (setup_parser defaults) seen ns [] st1 = (Ret (ns', []), st2) ->
  dest_str arg.useremail ∈ seen.
Proof.
  intros Hc Hd. apply convert_defaults_ret in Hd as (_ & _ & N3 & _).
  destruct (decide (dest_str arg.useremail ∈ seen)) as [Hin | Hnot]; [exact Hin|].
  specialize (N3 _ (useremail_in_parser defaults) eq_refl Hnot).
  now apply elem_of_nil in N3.
Qed.

(** C7: the parser of [setup_parser] does not accept a command line that
    does not supply [--useremail]: [parse_args] ends in [SystemExit].
    [main] then ends before it enters an action function or sends a
    request. *)
Theorem useremail_required defaults argv st :
  without_useremail argv = true ->
  (exists code, fst (parse_args E (setup_parser defaults) argv st) = Raise (SystemExit code)) /\
  (exists e, fst (main E argv st) = Raise e) /\
  entered (trace (snd (main E argv st))) = entered (trace st) /\
  calls (trace (snd (main E argv st))) = calls (trace st).
Proof.
  intros Habs.
  assert (Hparse : forall d st0, exists code st1,
             parse_args E (setup_parser d) argv st0 = (Raise (SystemExit code), st1)).
  { intros d st0.
    destruct (parse_args E (setup_parser d) argv st0) as [[args|e] st1] eqn:Hp.
    - exfalso. apply parse_args_ret in Hp as (ns & seen & st2 & Hc & Hd).
      pose proof (useremail_seen _ _ _ _ _ _ _ _ _ Hc Hd) as Hseen.
      eapply consume_ret in Hc as (_ & M2 & _); [|intros t Ht; exact Ht].
      destruct (M2 _ Hseen) as [Hin | Hsup]; [now apply elem_of_nil in Hin|].
      exact (not_supplied d argv _ _ (useremail_in_parser d) Habs Hsup eq_refl).
    - destruct (parse_args_raise _ _ _ _ _ Hp) as [code ->]. eauto. }
  split.
  { destruct (Hparse defaults st) as (code & st1 & ->). eauto. }
  assert (Hmain : exists e st',
             main E argv st = (Raise e, st') /\
             entered (trace st') = entered (trace st) /\
             calls (trace st') = calls (trace st)).
  { unfold main. unfold bind at 1.
    pose proof (keeps_load_site_config enter_of DEFAULT_CONFIG_FILE st) as Ke.
    pose proof (keeps_load_site_config call_in DEFAULT_CONFIG_FILE st) as Kc.
    destruct (load_site_config E DEFAULT_CONFIG_FILE st) as [[d|e] st0]; cbn [snd] in Ke, Kc.
    - cbv zeta. unfold bind at 1.
      pose proof (keeps_parse_args enter_of (setup_parser d) argv
                    (fun _ => eq_refl) eq_refl st0) as Pe.
      pose proof (keeps_parse_args call_in (setup_parser d) argv
                    (fun _ => eq_refl) eq_refl st0) as Pc.
      destruct (Hparse d st0) as (code & st1 & Hp). rewrite Hp in *. cbn [fst snd] in *.
      exists (SystemExit code), st1. unfold entered, calls.
      split; [reflexivity | split; congruence].
    - exists e, st0. unfold entered, calls. split; [reflexivity | split; assumption]. }
  destruct Hmain as (e & st' & -> & He & Hc). cbn [fst snd].
  split; [eauto | split; assumption].
Qed.

End Parsing.

Lemma useremail_required_witness :
  exists code,
    fst (parse_args sample_env (setup_parser sample_config) argv_forcelogout (initial_state tt))
    = Raise (SystemExit code).
Proof.
  apply (useremail_required sample_env sample_config argv_forcelogout). reflexivity.
Defined.

Section ParsedArguments.
Context {W : Type} (E : Env W).
Implicit Types (args ns : Namespace) (st : state W) (argv : list token).

(** C8: a namespace that [parse_args] returns for the parser of
    [setup_parser] has [useremail] present: it is the argument of an
    occurrence of [-e] or [--useremail] on the command line.
    [validate_args] can therefore exit with code 2 only when that argument
    is the empty string, and never does when it is not empty. *)
Theorem useremail_present defaults argv st args :
  fst (parse_args E (setup_parser defaults) argv st) = Ret args ->
  exists f s,
    Opt f [s] ∈ argv /\ (f = "-e" \/ f = "--useremail") /\
    str_attr args arg.useremail = Some s /\
    (forall V (st' : state V), fst (validate_args args st') = Raise (SystemExit 2) -> s = "") /\
    (s <> "" ->
     forall V (st' : state V), fst (validate_args args st') <> Raise (SystemExit 2)).
Proof.
  intros Hp.
  destruct (parse_args E (setup_parser defaults) argv st) as [r st1] eqn:Hp'.
  cbn in Hp. subst r.
  apply parse_args_ret in Hp' as (ns & seen & st2 & Hc & Hd).
  pose proof (useremail_seen _ _ _ _ _ _ _ _ _ _ Hc Hd) as Hseen.
  eapply (consume_ret E _ argv) in Hc as (_ & _ & _ & _ & M5); [|intros t Ht; exact Ht].
  destruct (M5 (fun d Hin => False_ind _ (proj1 (elem_of_nil _) Hin)) _ Hseen)
    as (f & s & a & Hin & Hfind & Ha & Hs).
  apply convert_defaults_ret in Hd as (N1 & _).
  apply find_action_in in Hfind as [Hmem Hex].
  rewrite (setup_parser_dest defaults a _ Hmem (useremail_in_parser defaults) Ha) in Hex.
  cbn in Hex. rewrite orb_false_r in Hex.
  assert (Hempty : forall V (st' : state V),
             fst (validate_args args st') = Raise (SystemExit 2) -> s = "").
  { intros V st' Hv. apply validate_args_exit_2 in Hv.
    unfold attr in Hv. rewrite N1, Hs in Hv. cbn in Hv.
    apply negb_false_iff, String.eqb_eq in Hv. exact Hv. }
  exists f, s. split; [exact Hin |]. split.
  { apply orb_true_iff in Hex as [Hex | Hex]; apply String.eqb_eq in Hex; auto. }
  split; [now rewrite N1 |]. split; [exact Hempty |].
  intros Hne V st' Hv. exact (Hne (Hempty V st' Hv)).
Qed.

(** C6: [load_site_config] returns the entries of the section [Site] of
    the configuration read from the file, and the parser built from them
    takes its defaults there: without the option on the command line,
    [siteurl] is the entry [siteurl] (or absent), [port] and [scheme] are
    the entries of that name or, without one, 443 and https, and
    [tokenfile] is the file named by the entry [tokenfile]. *)
Theorem load_site_config_defaults config_file (config : gmap string (gmap string string))
    (site : gmap string string) st :
  read_config E config_file = Some config ->
  config !! "Site" = Some site ->
  load_site_config E config_file st = (Ret site, st) /\
  forall argv st1 args,
    fst (parse_args E (setup_parser site) argv st1) = Ret args ->
    (absent ["--siteurl"] argv = true -> str_attr args arg.siteurl = site !! "siteurl") /\
    (absent ["--port"] argv = true ->
     str_attr args arg.port = Some (default DEFAULT_PORT (site !! "port"))) /\
    (absent ["--scheme"] argv = true ->
     str_attr args arg.scheme = Some (default DEFAULT_SCHEME (site !! "scheme"))) /\
    (absent ["--tokenfile"] argv = true ->
     tokenfile args = site !! "tokenfile" ≫= open_file E).
Proof.
  intros Hread Hsite. split.
  { unfold load_site_config. now rewrite Hread, Hsite. }
  intros argv st1 args Hp.
  destruct (parse_args E (setup_parser site) argv st1) as [r st2] eqn:Hp'.
  cbn in Hp. subst r.
  apply parse_args_ret in Hp' as (ns & seen & st3 & Hc & Hd).
  eapply (consume_ret E _ argv) in Hc as (_ & M2 & M3 & M4 & _); [|intros t Ht; exact Ht].
  apply convert_defaults_ret in Hd as (N1 & _ & _ & N4 & N5).
  assert (Hunseen : forall a', a' ∈ setup_parser site ->
             absent (option_strings_of a') argv = true -> dest_of a' ∉ seen).
  { intros a' Ha' Habs Hin. destruct (M2 _ Hin) as [Hnil | Hsup].
    - now apply elem_of_nil in Hnil.
    - exact (not_supplied site argv a' _ Ha' Habs Hsup eq_refl). }
  split; [|split; [|split]].
  - intros Habs. rewrite N1.
    rewrite (M3 arg.siteurl); [reflexivity|].
    apply (Hunseen (_StoreAction ["--siteurl"] (type_str arg.siteurl) (site !! "siteurl")
                      false None)); [|exact Habs].
    unfold setup_parser. repeat (first [now left | right]).
  - intros Habs. rewrite N1.
    rewrite (M3 arg.port); [reflexivity|].
    apply (Hunseen (_StoreAction ["--port"] (type_str arg.port)
                      (Some (default DEFAULT_PORT (site !! "port"))) false None));
      [|exact Habs].
    unfold setup_parser. repeat (first [now left | right]).
  - intros Habs. rewrite N1.
    rewrite (M3 arg.scheme); [reflexivity|].
    apply (Hunseen (_StoreAction ["--scheme"] (type_str arg.scheme)
                      (Some (default DEFAULT_SCHEME (site !! "scheme"))) false
                      (Some ["http"; "https"]))); [|exact Habs].
    unfold setup_parser. repeat (first [now left | right]).
  - intros Habs.
    assert (Hfile : _StoreAction ["--tokenfile"] type_is_valid_file (site !! "tokenfile")
                      false None ∈ setup_parser site)
      by (unfold setup_parser; repeat (first [now left | right])).
    pose proof (Hunseen _ Hfile Habs) as Hnot. cbn [dest_of] in Hnot.
    assert (Hinv : forall a path, a ∈ setup_parser site -> file_option a path ->
               site !! "tokenfile" = Some path).
    { intros a path Ha (fl & ch & ->).
      pose proof (setup_parser_dest site _ _ Ha Hfile eq_refl) as Heq.
      now injection Heq as _ <-. }
    destruct (site !! "tokenfile") as [path|] eqn:Htok; cbn.
    + destruct N5 as (a & path' & f & Ha & Hfo & Hopen & Htf).
      * exact Hnot.
      * exists (_StoreAction ["--tokenfile"] type_is_valid_file (Some path) false None), path.
        split; [exact Hfile | now exists ["--tokenfile"], None].
      * pose proof (Hinv a path' Ha Hfo) as [= <-]. now rewrite Htf, Hopen.
    + destruct N4 as [N4 | (a & path' & f & Ha & Hfo & _)].
      * rewrite N4. now rewrite (M4 Hnot).
      * pose proof (Hinv a path' Ha Hfo). discriminate.
Qed.

End ParsedArguments.

Lemma useremail_present_witness :
  exists f s,
    Opt f [s] ∈ argv_empty_email /\ (f = "-e" \/ f = "--useremail") /\
    str_attr args_empty_email arg.useremail = Some s /\
    fst (validate_args args_empty_email (initial_state tt)) = Raise (SystemExit 2).
Proof.
  destruct (useremail_present sample_env sample_config argv_empty_email (initial_state tt)
              args_empty_email) as (f & s & Hin & Hf & Hs & _).
  - vm_compute; reflexivity.
  - exists f, s. split; [exact Hin |]. split; [exact Hf |]. split; [exact Hs |].
    vm_compute; reflexivity.
Defined.

Lemma load_site_config_defaults_witness :
  load_site_config sample_env "config.ini" (initial_state tt)
    = (Ret sample_config, initial_state tt) /\
  str_attr sample_args arg.siteurl = Some "chat.example.com" /\
  str_attr sample_args arg.port = Some "443" /\
  str_attr sample_args arg.scheme = Some "https" /\
  tokenfile sample_args = open_file sample_env "token.txt".
Proof.
  destruct (load_site_config_defaults sample_env "config.ini" {[ "Site" := sample_config ]}
              sample_config (initial_state tt)) as [Hload Hdefaults].
  - reflexivity.
  - vm_compute; reflexivity.
  - destruct (Hdefaults argv_email (initial_state tt) sample_args) as (H1 & H2 & H3 & H4).
    + vm_compute; reflexivity.
    + split; [exact Hload |].
      split; [rewrite H1 by reflexivity; vm_compute; reflexivity |].
      split; [rewrite H2 by reflexivity; vm_compute; reflexivity |].
      split; [rewrite H3 by reflexivity; vm_compute; reflexivity |].
      rewrite H4 by reflexivity. vm_compute; reflexivity.
Defined.
(** * Further properties *)

(** ** How computations log and fail *)

Section Logging.
Context {W : Type} (E : Env W) (P : bool -> event -> Prop).

Lemma logs_ret {A} (a : A) : logs (W:=W) P (ret a).
Proof. intros st. split; [reflexivity|]. exists []. now rewrite app_nil_r. Qed.

Lemma logs_raise {A} e : logs (W:=W) (A:=A) P (raise e).
Proof. intros st. split; [reflexivity|]. exists []. now rewrite app_nil_r. Qed.

Lemma logs_exit {A} n : logs (W:=W) (A:=A) P (exit n).
Proof. apply logs_raise. Qed.

Lemma logs_get_DEBUG : logs (W:=W) P get_DEBUG.
Proof. intros st. split; [reflexivity|]. exists []. now rewrite app_nil_r. Qed.

Lemma logs_bind {A B} (m : M W A) (k : A -> M W B) :
  logs P m -> (forall a, logs P (k a)) -> logs P (bind m k).
Proof.
  intros Hm Hk st. unfold bind. destruct (Hm st) as (Hd & new & Ht & Hall).
  destruct (m st) as [[a|e] st1]; cbn [snd] in *.
  - destruct (Hk a st1) as (Hd' & new' & Ht' & Hall'). split; [congruence|].
    exists (new ++ new'). split.
    + now rewrite Ht', Ht, app_assoc.
    + apply Forall_app. split; [exact Hall | now rewrite <- Hd].
  - split; [exact Hd|]. now exists new.
Qed.

Lemma logs_emit e : (forall b, P b e) -> logs (W:=W) P (emit e).
Proof.
  intros He st. split; [reflexivity|]. exists [e]. split; [reflexivity|].
  constructor; [apply He | constructor].
Qed.

Lemma logs_debug_print msg :
  P true (Out (Print Stdout (Lit "DEBUG: " :: msg))) -> logs (W:=W) P (debug_print msg).
Proof.
  intros He st. unfold debug_print, bind, get_DEBUG.
  destruct (DEBUG st) eqn:Hd; cbn.
  - split; [exact Hd|]. eexists. split; [reflexivity|]. constructor; [exact He | constructor].
  - split; [exact Hd|]. exists []. now rewrite app_nil_r.
Qed.

Lemma logs_subscript v k : logs (W:=W) P (subscript v k).
Proof.
  destruct v; try apply logs_raise. cbn.
  destruct (dict_get d k); [apply logs_ret | apply logs_raise].
Qed.

Lemma logs_get v k : logs (W:=W) P (get v k).
Proof. destruct v; try apply logs_raise. apply logs_ret. Qed.

Lemma logs_request mm c : (forall b, P b (Call c)) -> logs P (request E mm c).
Proof.
  intros Hc st. unfold request. destruct (respond E mm c (world st)) as [v w]. cbn.
  split; [reflexivity|]. exists [Call c]. split; [reflexivity|].
  constructor; [apply Hc | constructor].
Qed.

End Logging.

Section Raising.
Context {W : Type} (E : Env W) (P : exn -> Prop).

Lemma raises_only_ret {A} (a : A) : raises_only (W:=W) P (ret a).
Proof. intros st e st'. discriminate. Qed.

Lemma raises_only_raise {A} e : P e -> raises_only (W:=W) (A:=A) P (raise e).
Proof. intros He st e' st' [= <- _]. exact He. Qed.

Lemma raises_only_emit e : raises_only (W:=W) P (emit e).
Proof. intros st e' st'. discriminate. Qed.

Lemma raises_only_get_DEBUG : raises_only (W:=W) P get_DEBUG.
Proof. intros st e' st'. discriminate. Qed.

Lemma raises_only_bind {A B} (m : M W A) (k : A -> M W B) :
  raises_only P m -> (forall a, raises_only P (k a)) -> raises_only P (bind m k).
Proof.
  intros Hm Hk st e st'. unfold bind.
  destruct (m st) as [[a|e1] st1] eqn:Hr.
  - apply Hk.
  - intros [= <- _]. exact (Hm _ _ _ Hr).
Qed.

Lemma raises_only_debug_print msg : raises_only (W:=W) P (debug_print msg).
Proof.
  apply raises_only_bind; [apply raises_only_get_DEBUG|].
  intros []; [apply raises_only_emit | apply raises_only_ret].
Qed.

Lemma raises_only_request mm c : raises_only P (request E mm c).
Proof.
  intros st e st'. unfold request. destruct (respond E mm c (world st)). discriminate.
Qed.

Lemma raises_only_subscript v k :
  P TypeError -> P (KeyError k) -> raises_only (W:=W) P (subscript v k).
Proof.
  intros Ht Hk. destruct v; try (apply raises_only_raise, Ht). cbn.
  destruct (dict_get d k); [apply raises_only_ret | apply raises_only_raise, Hk].
Qed.

Lemma raises_only_get v k : P AttributeError -> raises_only (W:=W) P (get v k).
Proof.
  intros Ha. destruct v; try (apply raises_only_raise, Ha). apply raises_only_ret.
Qed.

End Raising.

Lemma response_error_type : response_error TypeError.
Proof. now left. Qed.

Lemma response_error_attribute : response_error AttributeError.
Proof. right. now left. Qed.

Lemma response_error_key key :
  key ∈ ["id"; "status"; "nickname"; "team_id"] -> response_error (KeyError key).
Proof. intros H. right. right. now exists key. Qed.

(** [tac] proves that an event is admitted. *)
Ltac logs_with tac :=
  repeat first
    [ apply logs_ret | apply logs_raise | apply logs_exit | apply logs_get_DEBUG
    | apply logs_debug_print; tac
    | apply logs_emit; intros ?; tac
    | apply logs_subscript | apply logs_get
    | apply logs_request; intros ?; tac
    | apply logs_bind; [|intros ?]
    | match goal with
      | |- logs _ (if ?b then _ else _) => destruct b
      | |- logs _ (match ?o with Some _ => _ | None => _ end) => destruct o
      end ].

Ltac raises_response_error :=
  repeat first
    [ apply raises_only_ret | apply raises_only_emit | apply raises_only_get_DEBUG
    | apply raises_only_debug_print | apply raises_only_request
    | apply raises_only_subscript;
        [apply response_error_type | apply response_error_key; compute_done]
    | apply raises_only_get; apply response_error_attribute
    | apply raises_only_bind; [|intros ?]
    | match goal with
      | |- raises_only _ (if ?b then _ else _) => destruct b
      | |- raises_only _ (match ?o with Some _ => _ | None => _ end) => destruct o
      end ].

Ltac unfold_action c :=
  destruct c; cbn [run_action];
  [unfold force_user_logout | unfold disable_user | unfold new_nickname
  | unfold remove_nickname | unfold add_user_to_team | unfold remove_user_from_team
  | unfold add_user_to_channel | unfold remove_user_from_channel];
  unfold enter, print_info, print_warn, print_error, parse_channel_name.

Section Discipline.
Context {W : Type} (E : Env W).
Implicit Types (args : Namespace) (st : state W) (mm : Driver) (c : action_call).

Lemma run_action_output mm c : logs after_parsing (run_action E mm c).
Proof. unfold_action c; logs_with ltac:(first [reflexivity | exact I]). Qed.

Lemma run_action_no_login mm c : logs not_login (run_action E mm c).
Proof. unfold_action c; logs_with ltac:(discriminate). Qed.

Lemma run_action_raises mm c : raises_only response_error (run_action E mm c).
Proof. unfold_action c; raises_response_error. Qed.

End Discipline.

(** ** Output, requests and exceptions of a run *)

Section Runs.
Context {W : Type} (E : Env W).
Implicit Types (args : Namespace) (st : state W) (mm : Driver) (c : action_call).

Lemma validate_args_quiet_calls args : keeps call_in (validate_args (W:=W) args).
Proof. unfold validate_args. keeps_quiet. Qed.

Lemma logs_when P (b : bool) (m : M W bool) warn :
  logs P m -> (forall d t, P d (Out (Print Stderr (Lit "WARNING: " :: t)))) ->
  logs P (if b then ok <- m ;; (if negb ok then print_warn warn else ret tt) else ret tt).
Proof.
  intros Hm Hw. destruct b; [|apply logs_ret].
  apply logs_bind; [exact Hm | intros ok].
  destruct (negb ok); [apply logs_emit; intros d; apply Hw | apply logs_ret].
Qed.

Lemma logs_if_set P (o : option string) (m : string -> M W bool) warn :
  (forall s, logs P (m s)) -> (forall d t, P d (Out (Print Stderr (Lit "WARNING: " :: t)))) ->
  logs P (if_set o (fun s => ok <- m s ;; (if negb ok then print_warn (warn s) else ret tt))).
Proof.
  intros Hm Hw. destruct o as [s|]; cbn -[truthy]; [|apply logs_ret].
  apply (logs_when P (truthy (VStr s))); [apply Hm | exact Hw].
Qed.

Lemma main_actions_logs P mm args :
  (forall c, logs P (run_action E mm c)) ->
  (forall d t, P d (Out (Print Stderr (Lit "WARNING: " :: t)))) ->
  logs P (main_actions E mm args).
Proof.
  intros Hact Hw. unfold main_actions. cbv zeta.
  repeat (apply logs_bind; [| intros _]).
  - apply logs_when; [apply (Hact (call_force_user_logout _)) | exact Hw].
  - apply logs_when; [apply (Hact (call_disable_user _ false)) | exact Hw].
  - apply logs_when; [apply (Hact (call_disable_user _ true)) | exact Hw].
  - apply (logs_if_set P _ (new_nickname E mm _)); [|exact Hw].
    intros s. apply (Hact (call_new_nickname _ s)).
  - apply logs_when; [apply (Hact (call_remove_nickname _)) | exact Hw].
  - apply (logs_if_set P _ (fun s => add_user_to_team E mm _ (VStr s))); [|exact Hw].
    intros s. apply (Hact (call_add_user_to_team _ _)).
  - apply (logs_if_set P _ (fun s => remove_user_from_team E mm _ (VStr s))); [|exact Hw].
    intros s. apply (Hact (call_remove_user_from_team _ _)).
  - apply (logs_if_set P _ (fun s => add_user_to_channel E mm _ s _)); [|exact Hw].
    intros s. apply (Hact (call_add_user_to_channel _ _ _)).
  - apply (logs_if_set P _ (fun s => remove_user_from_channel E mm _ s _)); [|exact Hw].
    intros s. apply (Hact (call_remove_user_from_channel _ _ _)).
  - apply logs_ret.
Qed.

Lemma main_actions_output mm args : logs after_parsing (main_actions E mm args).
Proof.
  apply main_actions_logs; [apply run_action_output | intros d t; reflexivity].
Qed.

Lemma main_actions_no_login mm args : logs not_login (main_actions E mm args).
Proof.
  apply main_actions_logs; [apply run_action_no_login | intros d t; discriminate].
Qed.

Lemma raises_only_when Q (b : bool) (m : M W bool) warn :
  raises_only Q m ->
  raises_only Q (if b then ok <- m ;; (if negb ok then print_warn warn else ret tt)
                 else ret tt).
Proof.
  intros Hm. destruct b; [|apply raises_only_ret].
  apply raises_only_bind; [exact Hm | intros ok].
  destruct (negb ok); [apply raises_only_emit | apply raises_only_ret].
Qed.

Lemma raises_only_if_set Q (o : option string) (m : string -> M W bool) warn :
  (forall s, raises_only Q (m s)) ->
  raises_only Q
    (if_set o (fun s => ok <- m s ;; (if negb ok then print_warn (warn s) else ret tt))).
Proof.
  intros Hm. destruct o as [s|]; cbn -[truthy]; [|apply raises_only_ret].
  apply (raises_only_when Q (truthy (VStr s))). apply Hm.
Qed.

Lemma main_actions_raises mm args : raises_only response_error (main_actions E mm args).
Proof.
  pose proof (run_action_raises E mm) as Hact.
  unfold main_actions. cbv zeta.
  repeat (apply raises_only_bind; [| intros _]).
  - apply raises_only_when. apply (Hact (call_force_user_logout _)).
  - apply raises_only_when. apply (Hact (call_disable_user _ false)).
  - apply raises_only_when. apply (Hact (call_disable_user _ true)).
  - apply (raises_only_if_set _ _ (new_nickname E mm _)).
    intros s. apply (Hact (call_new_nickname _ s)).
  - apply raises_only_when. apply (Hact (call_remove_nickname _)).
  - apply (raises_only_if_set _ _ (fun s => add_user_to_team E mm _ (VStr s))).
    intros s. apply (Hact (call_add_user_to_team _ _)).
  - apply (raises_only_if_set _ _ (fun s => remove_user_from_team E mm _ (VStr s))).
    intros s. apply (Hact (call_remove_user_from_team _ _)).
  - apply (raises_only_if_set _ _ (fun s => add_user_to_channel E mm _ s _)).
    intros s. apply (Hact (call_add_user_to_channel _ _ _)).
  - apply (raises_only_if_set _ _ (fun s => remove_user_from_channel E mm _ s _)).
    intros s. apply (Hact (call_remove_user_from_channel _ _ _)).
  - apply raises_only_ret.
Qed.

(** X1: once the arguments are parsed, [main] leaves [DEBUG] as it is
    and only adds to its trace; every line it prints is an [INFO: ] line
    on stdout, a [DEBUG: ] line on stdout and only in debug mode, or a
    [WARNING: ] or [ERROR: ] line on stderr. *)
Theorem main_with_args_output args st :
  DEBUG (snd (main_with_args E args st)) = DEBUG st /\
  exists new,
    trace (snd (main_with_args E args st)) = trace st ++ new /\
    Forall (after_parsing (DEBUG st)) new.
Proof.
  revert st. change (logs after_parsing (main_with_args E args)).
  unfold main_with_args, validate_args, print_error, int.
  repeat first
    [ apply main_actions_output
    | apply logs_ret | apply logs_raise | apply logs_exit | apply logs_get_DEBUG
    | apply logs_debug_print; reflexivity
    | apply logs_emit; intros ?; reflexivity
    | apply logs_request; intros ?; exact I
    | apply logs_bind; [|intros ?]
    | match goal with
      | |- logs _ (if ?b then _ else _) => destruct b
      | |- logs _ (match ?o with Some _ => _ | None => _ end) => destruct o
      end ].
Qed.

(** X2: as long as the calls of the client return, the exceptions of
    the action functions, and of [main] while it runs them, come from
    reading a response or an entity: [TypeError], [AttributeError], or
    [KeyError] for one of the fields [id], [status], [nickname] and
    [team_id].  The functions raise nothing of their own and never exit
    the process; what the client library raises passes through them
    uncaught and is not covered here. *)
Theorem actions_raise_response_errors mm st e st' :
  (forall c, run_action E mm c st = (Raise e, st') -> response_error e) /\
  (forall args, main_actions E mm args st = (Raise e, st') -> response_error e).
Proof.
  split.
  - intros c. apply run_action_raises.
  - intros args. apply main_actions_raises.
Qed.

Lemma one_session_keeps {A B} (m : M W A) (k : A -> M W B) :
  keeps call_in m -> (forall a, one_session (k a)) -> one_session (bind m k).
Proof.
  intros Hm Hk st. unfold bind. specialize (Hm st). unfold calls in *.
  destruct (m st) as [[a|e] st1]; cbn [snd] in *.
  - specialize (Hk a st1). unfold calls in Hk. now rewrite Hm in Hk.
  - now left.
Qed.

Lemma one_session_login mm (m : M W unit) :
  logs not_login m -> one_session (request E mm login ;; m).
Proof.
  intros Hm st. right. unfold bind, request.
  destruct (respond E mm login (world st)) as [v w].
  match goal with |- context [m ?s] => destruct (Hm s) as (_ & new & Ht & Hall) end.
  cbn [trace] in Ht. exists (calls new). unfold calls. rewrite Ht. split.
  - rewrite !omap_app. cbn. now rewrite <- app_assoc.
  - intros Hin. apply list_elem_of_omap in Hin as (e & He & Hc).
    rewrite Forall_forall in Hall. destruct e; try discriminate.
    injection Hc as ->. exact (Hall _ He eq_refl).
Qed.

(** X3: [main] sends no request before the login and logs in at most
    once: the requests of a run are none at all, or the login followed by
    requests that are not logins. *)
Theorem main_with_args_one_session args st :
  calls (trace (snd (main_with_args E args st))) = calls (trace st) \/
  exists rest,
    calls (trace (snd (main_with_args E args st))) = calls (trace st) ++ login :: rest /\
    login ∉ rest.
Proof.
  revert st. change (one_session (main_with_args E args)).
  unfold main_with_args.
  apply one_session_keeps; [apply validate_args_quiet_calls | intros _].
  apply one_session_keeps; [keeps_quiet | intros userToken].
  apply one_session_keeps; [keeps_quiet | intros _].
  apply one_session_keeps; [unfold int; keeps_quiet | intros port_number].
  apply one_session_keeps; [keeps_quiet | intros dbg].
  apply one_session_login, main_actions_no_login.
Qed.

End Runs.

(** ** The action functions, case by case *)

Lemma item_falsy v k : truthy v = false -> item v k = None.
Proof. destruct v; try reflexivity. destruct d; [reflexivity | discriminate]. Qed.

Section Requests.
Context {W : Type} (E : Env W).
Implicit Types (args : Namespace) (st : state W) (mm : Driver) (c : action_call).

Lemma action_requests_of mm c st :
  calls (trace (snd (run_action E mm c st))) =
    calls (trace st) ++ requests_of E mm c (world st).
Proof.
  unfold requests_of.
  destruct c; cbn [run_action email_of second_lookup mutating_call];
    [unfold force_user_logout | unfold disable_user; destruct revert
    | unfold new_nickname | unfold remove_nickname | unfold add_user_to_team
    | unfold remove_user_from_team | unfold add_user_to_channel
    | unfold remove_user_from_channel];
    exec;
    repeat match goal with
           | |- context [match ?v with VNone => _ | _ => _ end] => destruct v; run
           end;
    exec;
    try match goal with
        | H : truthy ?v = false, H' : item ?v ?k = Some _ |- _ =>
            rewrite (item_falsy v k H) in H'; discriminate
        end;
    repeat match goal with
           | H : truthy ?v = false |- context [item ?v ?k] =>
               rewrite (item_falsy v k H)
           | H : item ?v ?k = _ |- context [item ?v ?k] => rewrite H
           end;
    unfold calls; rewrite ?omap_app; cbn; rewrite <- ?app_assoc; cbn;
    reflexivity.
Qed.

Lemma requests_of_straight_line mm c w : straight_line c (requests_of E mm c w).
Proof.
  unfold straight_line, requests_of.
  destruct (respond E mm _ w) as [user w1].
  destruct (item user "id") as [user_id|]; [|now left].
  destruct (second_lookup c) as [lookup|] eqn:Hl.
  - destruct (respond E mm lookup w1) as [entity w2].
    destruct (item entity "id") as [other_id|].
    + right; right. now exists user_id, other_id.
    + right; left. now exists lookup.
  - right; right. now exists user_id, VNone.
Qed.

(** X4: whatever the server answers, the requests of an action function
    are those of [requests_of]: the user lookup; then, for a user with an
    [id], the team or channel lookup where it has one; then its one
    mutating request, with the identifiers the lookups returned.  It
    stops early where a lookup gives no [id], never repeats a request and
    never sends the mutating request of another action. *)
Theorem action_requests mm c st :
  calls (trace (snd (run_action E mm c st))) =
    calls (trace st) ++ requests_of E mm c (world st) /\
  straight_line c (requests_of E mm c (world st)).
Proof. split; [apply action_requests_of | apply requests_of_straight_line]. Qed.

(** X5: an entity that is found but carries no [id] (an error object,
    say) stops the action function at [user['id']]: it raises [KeyError]
    for a dictionary and [TypeError] for anything else, after the user
    lookup and nothing more, and prints no warning. *)
Theorem user_without_id mm c st user w1 :
  respond E mm (users_get_user_by_email (email_of c)) (world st) = (user, w1) ->
  truthy user = true ->
  item user "id" = None ->
  fst (run_action E mm c st) =
    Raise (match user with VDict _ => KeyError "id" | _ => TypeError end) /\
  calls (trace (snd (run_action E mm c st))) =
    calls (trace st) ++ [users_get_user_by_email (email_of c)] /\
  on_stderr (trace (snd (run_action E mm c st))) = on_stderr (trace st).
Proof.
  intros Hu Htrue Hid.
  destruct c; cbn [run_action email_of] in *;
    [unfold force_user_logout | unfold disable_user; destruct revert
    | unfold new_nickname | unfold remove_nickname | unfold add_user_to_team
    | unfold remove_user_from_team | unfold add_user_to_channel
    | unfold remove_user_from_channel];
    exec; repeat split; trace_eq.
Qed.

(** X6: without a requested task [main] runs no action: after the
    login it returns at once, sending and printing nothing. *)
Theorem no_task_no_action mm args st :
  task_requested args = false -> main_actions E mm args st = (Ret tt, st).
Proof.
  unfold task_requested. cbn [existsb action_order requested]. unfold attr.
  intros H. repeat (apply orb_false_iff in H as [? H]).
  unfold main_actions, if_set. cbv zeta.
  repeat match goal with
         | Hb : flag_attr args _ = false |- _ => rewrite Hb; clear Hb
         end.
  destruct (str_attr args arg.newnickname), (str_attr args arg.teamadd),
    (str_attr args arg.teamremove), (str_attr args arg.channeladd),
    (str_attr args arg.channelremove); cbn [ostr] in *;
    repeat match goal with
           | Hb : truthy (VStr _) = false |- _ => rewrite Hb; clear Hb
           end;
    reflexivity.
Qed.

(** X7: a port that [int()] does not accept ends [main] with
    [ValueError] after the validation and before the login: no request
    is sent. *)
Theorem bad_port_stops_before_login args st p :
  fst (validate_args args st) = Ret tt ->
  str_attr args arg.port = Some p ->
  py_int E p = None ->
  fst (main_with_args E args st) = Raise ValueError /\
  calls (trace (snd (main_with_args E args st))) = calls (trace st).
Proof.
  intros Hv Hp Hint.
  assert (Htok : exists f, tokenfile args = Some f).
  { rewrite validate_args_outcome in Hv.
    destruct (site_missing args) eqn:Hs; [discriminate|].
    unfold site_missing, attr_tokenfile in Hs.
    destruct (tokenfile args) as [f|]; [now exists f|].
    cbn in Hs. now rewrite !orb_true_r in Hs. }
  destruct Htok as [f Hf].
  assert (H : exists st2, main_with_args E args st = (Raise ValueError, st2) /\
                          calls (trace st2) = calls (trace st)).
  { pose proof (validate_args_quiet_calls (W:=W) args st) as Hk.
    unfold main_with_args, int. unfold bind at 1.
    destruct (validate_args args st) as [[[]|e] st1]; cbn [fst snd] in *; [|discriminate].
    rewrite Hf, Hp, Hint. run. unfold calls.
    destruct (DEBUG st1); cbn; eexists; (split; [reflexivity|]); cbn;
      rewrite ?omap_app; cbn; rewrite ?app_nil_r; exact Hk. }
  destruct H as (st2 & -> & Hc). split; [reflexivity | exact Hc].
Qed.

End Requests.

(** ** Configuration and command line *)

Ltac member_of_parser H :=
  unfold setup_parser in H; rewrite !elem_of_cons, elem_of_nil in H;
  repeat destruct H as [H | H]; try contradiction; subst.

Section CommandLine.
Context {W : Type} (E : Env W).
Implicit Types (args ns : Namespace) (st : state W) (parser : ArgumentParser)
  (argv : list token) (a : Action).

(** A successful parse does not touch the state and does not depend on it. *)
Lemma take_action_state a f vs ns st ns1 st1 :
  take_action E a f vs ns st = (Ret ns1, st1) ->
  st1 = st /\ forall st', take_action E a f vs ns st' = (Ret ns1, st').
Proof.
  destruct a as [fl [d0|] dflt req [allowed|] | fl d0 | fl];
    destruct vs as [|v [|v' vs]]; parse_run;
    try discriminate;
    repeat match goal with
           | |- context [existsb ?p ?l] => destruct (existsb p l); parse_run
           | |- context [open_file E ?x] => destruct (open_file E x); parse_run
           end;
    try discriminate; intros [= <- <-]; split; reflexivity.
Qed.

Lemma consume_state parser argv :
  forall ns seen extras st r st1,
  consume E parser argv ns seen extras st = (Ret r, st1) ->
  st1 = st /\ forall st', consume E parser argv ns seen extras st' = (Ret r, st').
Proof.
  induction argv as [|[f vs|w] argv IH]; intros ns seen extras st r st1; cbn [consume].
  - intros [= <- <-]. split; reflexivity.
  - destruct (find_action parser f) as [a|]; [|apply IH].
    unfold bind at 1.
    destruct (take_action E a f vs ns st) as [[ns1|e] st2] eqn:Ht; [|discriminate].
    apply take_action_state in Ht as [-> Ht]. intros Hc.
    apply IH in Hc as [-> Hc]. split; [reflexivity|].
    intros st'. unfold bind. rewrite Ht. apply Hc.
  - apply IH.
Qed.

Lemma convert_defaults_state actions seen :
  forall ns req st r st1,
  convert_defaults E actions seen ns req st = (Ret r, st1) ->
  st1 = st /\ forall st', convert_defaults E actions seen ns req st' = (Ret r, st').
Proof.
  induction actions as [|a actions IH]; intros ns req st r st1; cbn [convert_defaults].
  - intros [= <- <-]. split; reflexivity.
  - case_decide; [apply IH|].
    destruct a as [fl [d0|] [path|] [|] ch | fl d0 | fl]; try apply IH.
    unfold bind. rewrite is_valid_file_run.
    destruct (open_file E path) as [f|] eqn:Hopen; [|discriminate].
    intros Hc. apply IH in Hc as [-> Hc]. split; [reflexivity|].
    intros st'. rewrite is_valid_file_run, Hopen. apply Hc.
Qed.

Lemma parse_args_state parser argv st args :
  fst (parse_args E parser argv st) = Ret args ->
  forall st', parse_args E parser argv st' = (Ret args, st').
Proof.
  intros Hp st'.
  destruct (parse_args E parser argv st) as [r st1] eqn:Hp'. cbn in Hp. subst r.
  apply parse_args_ret in Hp' as (ns & seen & st2 & Hc & Hd).
  apply consume_state in Hc as [-> Hc]. apply convert_defaults_state in Hd as [-> Hd].
  unfold parse_args, bind. now rewrite Hc, Hd.
Qed.

Lemma load_site_config_run config_file (config : gmap string (gmap string string)) site st :
  read_config E config_file = Some config -> config !! "Site" = Some site ->
  load_site_config E config_file st = (Ret site, st).
Proof. intros Hr Hs. unfold load_site_config. now rewrite Hr, Hs. Qed.

(** X8: the arguments [main] validates and acts on are those parsed
    with the defaults of the file that [--config] names: the section
    [Site] of [config.ini] serves the first parse only.  Up to there
    [main] sends no request and prints nothing on stderr, and it is in
    debug mode exactly when [--debug] is given (or [DEBUG] was set). *)
Theorem main_uses_config_file argv st
    (config0 config1 : gmap string (gmap string string)) site0 args0 config_file site1 args1 :
  read_config E DEFAULT_CONFIG_FILE = Some config0 -> config0 !! "Site" = Some site0 ->
  fst (parse_args E (setup_parser site0) argv st) = Ret args0 ->
  str_attr args0 arg.config = Some config_file -> config_file <> "" ->
  read_config E config_file = Some config1 -> config1 !! "Site" = Some site1 ->
  fst (parse_args E (setup_parser site1) argv st) = Ret args1 ->
  exists st1,
    main E argv st = main_with_args E args1 st1 /\
    DEBUG st1 = flag_attr args0 arg.debug || DEBUG st /\
    world st1 = world st /\
    calls (trace st1) = calls (trace st) /\
    on_stderr (trace st1) = on_stderr (trace st).
Proof.
  intros Hr0 Hs0 Hp0 Hcfg Hne Hr1 Hs1 Hp1.
  pose proof (parse_args_state _ _ _ _ Hp0) as P0.
  pose proof (parse_args_state _ _ _ _ Hp1) as P1.
  unfold main. unfold bind at 1.
  rewrite (load_site_config_run _ _ _ st Hr0 Hs0). cbv zeta.
  unfold bind at 1. rewrite P0. rewrite Hcfg.
  assert (Htrue : truthy (VStr config_file) = true).
  { cbn. apply negb_true_iff, String.eqb_neq. exact Hne. }
  rewrite Htrue.
  destruct (flag_attr args0 arg.debug) eqn:Hdbg.
  - run. rewrite (load_site_config_run _ _ _ _ Hr1 Hs1). rewrite P1.
    eexists. split; [reflexivity|]. cbn. repeat split; trace_eq.
  - run. destruct (DEBUG st) eqn:Hd; run;
      rewrite (load_site_config_run _ _ _ _ Hr1 Hs1); rewrite P1;
      (eexists; split; [reflexivity|]); cbn; rewrite ?Hd; repeat split; trace_eq.
Qed.

(** X9: [main] reads [config.ini] before it looks at the command line:
    when that file has no section [Site], every run ends with
    [KeyError('Site')], whatever the command line says (a [--config]
    option included), and nothing is printed or sent. *)
Theorem main_needs_site_section argv st (config0 : gmap string (gmap string string)) :
  read_config E DEFAULT_CONFIG_FILE = Some config0 -> config0 !! "Site" = None ->
  main E argv st = (Raise (KeyError "Site"), st).
Proof.
  intros Hr Hs. unfold main, bind, load_site_config. now rewrite Hr, Hs.
Qed.

Lemma consume_invariant (Q : Namespace -> Prop) parser argv :
  (forall f vs a ns st ns1 st1,
      find_action parser f = Some a -> Q ns ->
      take_action E a f vs ns st = (Ret ns1, st1) -> Q ns1) ->
  forall ns seen extras st ns' seen' extras' st',
  consume E parser argv ns seen extras st = (Ret (ns', seen', extras'), st') ->
  Q ns -> Q ns'.
Proof.
  intros Hstep. induction argv as [|[f vs|w] argv IH];
    intros ns seen extras st ns' seen' extras' st'; cbn [consume].
  - now intros [= <- _ _ _].
  - destruct (find_action parser f) as [a|] eqn:Hfind; [|apply IH].
    unfold bind at 1.
    destruct (take_action E a f vs ns st) as [[ns1|e] st2] eqn:Ht; [|discriminate].
    intros Hc HQ. eapply IH; [exact Hc|]. eapply Hstep; eassumption.
  - apply IH.
Qed.

Lemma consume_taken parser argv :
  forall ns seen extras st r st1,
  consume E parser argv ns seen extras st = (Ret r, st1) ->
  forall f vs a, Opt f vs ∈ argv -> find_action parser f = Some a ->
  exists ns0 ns1, take_action E a f vs ns0 st = (Ret ns1, st).
Proof.
  induction argv as [|[f0 vs0|w] argv IH]; intros ns seen extras st r st1 Hc f vs a Hin Hf;
    cbn [consume] in Hc.
  - now apply elem_of_nil in Hin.
  - apply elem_of_cons in Hin as [[= -> ->] | Hin].
    + rewrite Hf in Hc. unfold bind at 1 in Hc.
      destruct (take_action E a f0 vs0 ns st) as [[ns1|e] st2] eqn:Ht; [|discriminate].
      apply take_action_state in Ht as [-> Ht]. exists ns, ns1. apply Ht.
    + destruct (find_action parser f0) as [a0|]; [|eapply IH; eassumption].
      unfold bind at 1 in Hc.
      destruct (take_action E a0 f0 vs0 ns st) as [[ns1|e] st2] eqn:Ht; [|discriminate].
      apply take_action_state in Ht as [-> Ht]. eapply IH; eassumption.
  - apply elem_of_cons in Hin as [[=] | Hin]. eapply IH; eassumption.
Qed.

(** X10: a token file whose path does not exist ([os.path.exists] is
    false) ends the parsing with [SystemExit], whether it is named by [--tokenfile] on the command
    line or, without that option, by the entry [tokenfile] of the
    configuration. *)
Theorem missing_tokenfile defaults argv st path :
  open_file E path = None ->
  Opt "--tokenfile" [path] ∈ argv \/
    (absent ["--tokenfile"] argv = true /\ defaults !! "tokenfile" = Some path) ->
  exists code, fst (parse_args E (setup_parser defaults) argv st) = Raise (SystemExit code).
Proof.
  intros Hopen Hwhere.
  destruct (parse_args E (setup_parser defaults) argv st) as [[args|e] st1] eqn:Hp.
  - exfalso. apply parse_args_ret in Hp as (ns & seen & st2 & Hc & Hd).
    destruct Hwhere as [Hin | [Habs Hdef]].
    + destruct (consume_taken _ _ _ _ _ _ _ _ Hc "--tokenfile" [path]
                  (_StoreAction ["--tokenfile"] type_is_valid_file
                     (defaults !! "tokenfile") false None) Hin eq_refl)
        as (ns0 & ns1 & Ht).
      revert Ht. parse_run. rewrite Hopen. parse_run. discriminate.
    + assert (Hfile : _StoreAction ["--tokenfile"] type_is_valid_file (defaults !! "tokenfile")
                        false None ∈ setup_parser defaults)
        by (unfold setup_parser; repeat (first [now left | right])).
      eapply (consume_ret E _ argv) in Hc as (_ & M2 & _); [|intros t Ht; exact Ht].
      apply convert_defaults_ret in Hd as (_ & _ & _ & _ & N5).
      destruct N5 as (a & path' & f & Ha & (fl & ch & ->) & Hopen' & _).
      * intros Hin. destruct (M2 _ Hin) as [Hnil | Hsup]; [now apply elem_of_nil in Hnil|].
        exact (not_supplied defaults argv _ _ Hfile Habs Hsup eq_refl).
      * eexists _, path. split; [exact Hfile|]. rewrite Hdef. now exists ["--tokenfile"], None.
      * pose proof (setup_parser_dest defaults _ _ Ha Hfile eq_refl) as Heq.
        injection Heq as _ Heq. rewrite Hdef in Heq. injection Heq as ->. congruence.
  - destruct (parse_args_raise _ _ _ _ _ _ Hp) as [code ->]. eauto.
Qed.

(** X11: in a namespace the parser returns, [port] is always a string,
    and [scheme] is [http] or [https] unless it is the value of the entry
    [scheme] of the configuration, which is taken unchecked. *)
Theorem parsed_port_and_scheme defaults argv st args :
  fst (parse_args E (setup_parser defaults) argv st) = Ret args ->
  (exists p, str_attr args arg.port = Some p) /\
  (str_attr args arg.scheme = Some "http" \/
   str_attr args arg.scheme = Some "https" \/
   str_attr args arg.scheme = defaults !! "scheme").
Proof.
  intros Hp.
  destruct (parse_args E (setup_parser defaults) argv st) as [r st1] eqn:Hp'.
  cbn in Hp. subst r.
  apply parse_args_ret in Hp' as (ns & seen & st2 & Hc & Hd).
  apply convert_defaults_ret in Hd as (N1 & _). rewrite !N1.
  pose (Q := fun ns : Namespace =>
    (exists p, str_attr ns arg.port = Some p) /\
    (str_attr ns arg.scheme = Some "http" \/ str_attr ns arg.scheme = Some "https" \/
     str_attr ns arg.scheme = Some (default DEFAULT_SCHEME (defaults !! "scheme")))).
  assert (HQ : Q ns).
  { eapply (consume_invariant Q); [| exact Hc |].
    - intros f vs a ns0 st0 ns1 st3 Hfind [[p Hport] Hscheme] Ht.
      apply find_action_in in Hfind as [Ha _].
      member_of_parser Ha; revert Ht; destruct vs as [|v [|v' vs]]; parse_run;
        cbn [existsb];
        try discriminate;
        repeat match goal with
               | |- context [open_file E ?x] => destruct (open_file E x); parse_run
               | |- context [String.eqb v ?s] =>
                   destruct (String.eqb_spec v s); cbn [orb]; subst
               end;
        try discriminate;
        intros [= <- <-]; (split; [eexists; cbn; eauto | cbn; auto]).
    - split; [eexists; reflexivity | right; right; reflexivity]. }
  destruct HQ as [Hport [H | [H | H]]]; (split; [exact Hport|]); auto.
  destruct (defaults !! "scheme") as [s|] eqn:Hs; cbn in H; auto.
Qed.

End CommandLine.

(** ** Channel names, print functions and validation *)

Lemma convert_char_plain c : convert_char c = c <-> plain_char c = true.
Proof.
  destruct c as [[] [] [] [] [] [] [] []]; vm_compute; split; intros H;
    first [reflexivity | discriminate H].
Qed.

Lemma str_map_id f s :
  str_map f s = s <-> str_all (fun c => if Ascii.eqb (f c) c then true else false) s = true.
Proof.
  induction s as [|c s IH]; cbn; [tauto|].
  destruct (Ascii.eqb_spec (f c) c) as [Heq | Hne]; cbn.
  - rewrite <- IH. split; [now intros [= _ ->] | intros ->; now rewrite Heq].
  - split; [intros [= Hc _]; contradiction | discriminate].
Qed.

Lemma str_all_ext p q s : (forall c, p c = q c) -> str_all p s = str_all q s.
Proof. intros H. induction s as [|c s IH]; cbn; [reflexivity | now rewrite H, IH]. Qed.

Lemma str_map_length f s : String.length (str_map f s) = String.length s.
Proof. induction s as [|c s IH]; cbn; [reflexivity | now rewrite IH]. Qed.

Lemma str_map_append f s1 s2 : str_map f (s1 +:+ s2) = str_map f s1 +:+ str_map f s2.
Proof.
  induction s1 as [|c s1 IH]; [reflexivity|].
  change (str_map f (String c (s1 +:+ s2)) =
          String (f c) (str_map f s1 +:+ str_map f s2)).
  cbn [str_map]. now rewrite IH.
Qed.

(** X12: the conversion of a channel name keeps its length and works
    character by character; it returns the name unchanged exactly when
    the name holds no upper-case character and no space. *)
Theorem converted_channelname_fixed s :
  String.length (converted_channelname s) = String.length s /\
  (converted_channelname s = s <-> str_all plain_char s = true).
Proof.
  rewrite converted_channelname_chars. split; [apply str_map_length|].
  rewrite str_map_id. rewrite (str_all_ext _ plain_char); [reflexivity|].
  intros c. destruct (Ascii.eqb_spec (convert_char c) c) as [Heq | Hne].
  - symmetry. now apply convert_char_plain.
  - symmetry. apply not_true_iff_false. intros Hp. now apply convert_char_plain in Hp.
Qed.

Lemma convert_char_lower c : convert_char (lower_char c) = convert_char c.
Proof. each_char c. Qed.

Lemma convert_char_dash c :
  convert_char (if Ascii.eqb c " " then "-"%char else c) = convert_char c.
Proof. each_char c. Qed.

(** X13, for the strings of code points below 256: names that differ
    only in letter case, or only in spaces against dashes, are converted
    to the same channel name; and the conversion of a concatenation is
    the concatenation of the conversions. *)
Theorem converted_channelname_collisions s :
  converted_channelname (str_lower s) = converted_channelname s /\
  converted_channelname (str_replace " " "-" s) = converted_channelname s /\
  forall s', converted_channelname (s +:+ s') =
             converted_channelname s +:+ converted_channelname s'.
Proof.
  rewrite !converted_channelname_chars. unfold str_lower, str_replace.
  rewrite !str_map_map. repeat split.
  - apply str_map_ext, convert_char_lower.
  - apply str_map_ext, convert_char_dash.
  - intros s'. rewrite !converted_channelname_chars. apply str_map_append.
Qed.

(** X14: the print functions of [userutil.py] write the lines the
    functions of the same name in [print_utils.py] write; for
    [debug_print] this holds when the [DEBUG] global of [print_utils] is
    bound to the value [DEBUG] has in [userutil]. *)
Theorem print_functions_agree {W} msg (st : state W) :
  lines_of (trace (snd (print_info msg st))) =
    lines_of (trace st) ++ print_utils.print_info msg /\
  lines_of (trace (snd (print_warn msg st))) =
    lines_of (trace st) ++ print_utils.print_warn msg /\
  lines_of (trace (snd (print_error msg st))) =
    lines_of (trace st) ++ print_utils.print_error msg /\
  lines_of (trace (snd (debug_print msg st))) =
    lines_of (trace st) ++ print_utils.debug_print {[ "DEBUG" := VBool (DEBUG st) ]} msg.
Proof.
  unfold lines_of. repeat split; try (cbn; rewrite omap_app; reflexivity).
  unfold print_utils.debug_print. rewrite lookup_singleton_eq.
  unfold debug_print, bind, get_DEBUG. cbn.
  destruct (DEBUG st); cbn; [rewrite omap_app; reflexivity | now rewrite app_nil_r].
Qed.

(** X15: [validate_args] changes nothing but the output: it leaves
    [DEBUG] and the server alone and sends no request.  On stderr it
    writes nothing when it returns and exactly one [ERROR: ] line when it
    exits, the line of the check that failed. *)
Theorem validate_args_effects {W} args (st : state W) :
  let st' := snd (validate_args args st) in
  DEBUG st' = DEBUG st /\ world st' = world st /\
  calls (trace st') = calls (trace st) /\
  on_stderr (trace st') =
    on_stderr (trace st) ++
    match fst (validate_args args st) with
    | Raise (SystemExit 1) =>
        [[Lit "ERROR: ";
          Lit "Site URL, port, HTTP scheme and token file are all required parameter!"]]
    | Raise (SystemExit 2) => [[Lit "ERROR: "; Lit "User email required!"]]
    | Raise (SystemExit 3) =>
        [[Lit "ERROR: ";
          Lit "A team name is required when performing channel operations!"]]
    | _ => []
    end.
Proof.
  unfold validate_args. rewrite task_condition.
  generalize (task_requested args)
    (negb (truthy (attr args arg.siteurl)) || negb (truthy (attr args arg.port))
     || negb (truthy (attr args arg.scheme)) || negb (truthy (attr_tokenfile args)))
    (truthy (attr args arg.channeladd) || truthy (attr args arg.channelremove))
    (truthy (attr args arg.useremail)) (truthy (attr args arg.team)).
  intros task site channel email team_name. run.
  destruct (DEBUG st) eqn:Hd, site, task, email, channel, team_name; cbn;
    rewrite ?Hd; repeat split; trace_eq.
Qed.

(** ** Sample runs of the further properties *)

Lemma actions_raise_response_errors_witness :
  fst (main_actions sample_env sample_mm args_team_add_remove (initial_state tt)) =
    Raise (KeyError "team_id") /\
  entered (trace (snd (main_actions sample_env sample_mm args_team_add_remove
                         (initial_state tt)))) =
    [call_add_user_to_team (VStr "ann@example.com") (VStr "devs")] /\
  response_error (KeyError "team_id").
Proof.
  split; [vm_compute; reflexivity |]. split; [vm_compute; reflexivity |].
  apply (proj2 (actions_raise_response_errors sample_env sample_mm (initial_state tt)
                  (KeyError "team_id")
                  (snd (main_actions sample_env sample_mm args_team_add_remove
                          (initial_state tt))))
           args_team_add_remove).
  vm_compute; reflexivity.
Defined.

Lemma user_without_id_witness :
  fst (force_user_logout error_env sample_mm (VStr "ann@example.com") (initial_state tt)) =
    Raise (KeyError "id") /\
  calls (trace (snd (force_user_logout error_env sample_mm (VStr "ann@example.com")
                       (initial_state tt)))) =
    [users_get_user_by_email (VStr "ann@example.com")] /\
  on_stderr (trace (snd (force_user_logout error_env sample_mm (VStr "ann@example.com")
                           (initial_state tt)))) = [].
Proof.
  apply (user_without_id error_env sample_mm (call_force_user_logout (VStr "ann@example.com"))
           (initial_state tt)
           (VDict [("status_code", VInt 404); ("message", VStr "Not found")]) tt);
    reflexivity.
Defined.

Lemma no_task_no_action_witness :
  main_actions sample_env sample_mm sample_args (initial_state tt) =
    (Ret tt, initial_state tt).
Proof. apply no_task_no_action. vm_compute; reflexivity. Defined.

Lemma bad_port_stops_before_login_witness :
  fst (main_with_args sample_env args_bad_port (initial_state tt)) = Raise ValueError /\
  calls (trace (snd (main_with_args sample_env args_bad_port (initial_state tt)))) = [].
Proof.
  apply (bad_port_stops_before_login sample_env args_bad_port (initial_state tt) "http-alt");
    vm_compute; reflexivity.
Defined.

Lemma main_uses_config_file_witness :
  (exists st1,
      main staging_env argv_staging (initial_state tt) =
        main_with_args staging_env args_staging st1 /\
      DEBUG st1 = false /\ world st1 = tt /\
      calls (trace st1) = [] /\ on_stderr (trace st1) = []) /\
  str_attr args_staging_first arg.siteurl = Some "chat.example.com" /\
  str_attr args_staging arg.siteurl = Some "staging.example.com" /\
  str_attr args_staging arg.port = Some "8065" /\
  str_attr args_staging arg.scheme = Some "http".
Proof.
  split; [| repeat split; vm_compute; reflexivity].
  apply (main_uses_config_file staging_env argv_staging (initial_state tt)
           {[ "Site" := sample_config ]} {[ "Site" := staging_config ]}
           sample_config args_staging_first "staging.ini" staging_config args_staging);
    first [vm_compute; reflexivity | discriminate].
Defined.

Lemma main_needs_site_section_witness :
  main bare_env [Opt "--config" ["other.ini"]; Opt "-e" ["ann@example.com"]]
    (initial_state tt) = (Raise (KeyError "Site"), initial_state tt).
Proof. apply (main_needs_site_section bare_env _ _ ∅); reflexivity. Defined.

Lemma missing_tokenfile_witness :
  (exists code,
      fst (parse_args sample_env (setup_parser sample_config) argv_missing_tokenfile
             (initial_state tt)) = Raise (SystemExit code)) /\
  (exists code,
      fst (parse_args sample_env (setup_parser config_missing_tokenfile) argv_email
             (initial_state tt)) = Raise (SystemExit code)).
Proof.
  split.
  - apply (missing_tokenfile sample_env sample_config argv_missing_tokenfile
             (initial_state tt) "nope.txt"); [reflexivity |].
    left. unfold argv_missing_tokenfile. right. left.
  - apply (missing_tokenfile sample_env config_missing_tokenfile argv_email
             (initial_state tt) "nope.txt"); [reflexivity |].
    right. split; reflexivity.
Defined.

Lemma parsed_port_and_scheme_witness :
  (exists p, str_attr sample_args arg.port = Some p) /\
  (str_attr sample_args arg.scheme = Some "http" \/
   str_attr sample_args arg.scheme = Some "https" \/
   str_attr sample_args arg.scheme = sample_config !! "scheme").
Proof.
  apply (parsed_port_and_scheme sample_env sample_config argv_email (initial_state tt)).
  vm_compute; reflexivity.
Defined.

Lemma user_not_found_witness :
  fst (force_user_logout sample_env sample_mm (VStr "bob@example.com") (initial_state tt)) =
    Ret false /\
  calls (trace (snd (force_user_logout sample_env sample_mm (VStr "bob@example.com")
                       (initial_state tt)))) =
    [users_get_user_by_email (VStr "bob@example.com")] /\
  on_stderr (trace (snd (force_user_logout sample_env sample_mm (VStr "bob@example.com")
                           (initial_state tt)))) =
    [[Lit "WARNING: "; Lit "User '"; Show (VStr "bob@example.com"); Lit "' not found!"]].
Proof.
  apply (user_not_found sample_env sample_mm (call_force_user_logout (VStr "bob@example.com"))
           (initial_state tt) VNone tt); reflexivity.
Defined.

Lemma team_not_found_witness :
  fst (add_user_to_team lonely_env sample_mm (VStr "ann@example.com") (VStr "devs")
         (initial_state tt)) = Ret false /\
  calls (trace (snd (add_user_to_team lonely_env sample_mm (VStr "ann@example.com")
                       (VStr "devs") (initial_state tt)))) =
    [users_get_user_by_email (VStr "ann@example.com"); teams_get_team_by_name (VStr "devs")] /\
  on_stderr (trace (snd (add_user_to_team lonely_env sample_mm (VStr "ann@example.com")
                           (VStr "devs") (initial_state tt)))) =
    [[Lit "WARNING: "; Lit "Unable to get ID of team: '"; Show (VStr "devs")]].
Proof.
  apply (team_not_found lonely_env sample_mm (VStr "ann@example.com") (VStr "devs")
           (initial_state tt) (VDict [("id", VStr "u1")]) tt (VStr "u1") (VDict []) tt);
    first [reflexivity | left; reflexivity].
Defined.

Lemma channel_not_found_witness :
  fst (remove_user_from_channel lonely_env sample_mm (VStr "ann@example.com") "Town Square"
         (VStr "devs") (initial_state tt)) = Ret false /\
  calls (trace (snd (remove_user_from_channel lonely_env sample_mm (VStr "ann@example.com")
                       "Town Square" (VStr "devs") (initial_state tt)))) =
    [users_get_user_by_email (VStr "ann@example.com");
     channels_get_channel_by_name_and_team_name (VStr "devs") (VStr "town-square")] /\
  on_stderr (trace (snd (remove_user_from_channel lonely_env sample_mm
                           (VStr "ann@example.com") "Town Square" (VStr "devs")
                           (initial_state tt)))) =
    [[Lit "WARNING: "; Lit "Unable to retrieve channel!"]].
Proof.
  apply (channel_not_found lonely_env sample_mm (VStr "ann@example.com") "Town Square"
           (VStr "devs") (initial_state tt) (VDict [("id", VStr "u1")]) tt (VStr "u1")
           (VDict []) tt);
    first [reflexivity | right; reflexivity].
Defined.

Lemma action_outcome_witness :
  calls (trace (snd (new_nickname sample_env sample_mm (VStr "ann@example.com") "Ann"
                       (initial_state tt)))) =
    [users_get_user_by_email (VStr "ann@example.com");
     users_patch_user (VStr "u1") (VDict [("nickname", VStr "Ann")])] /\
  fst (new_nickname sample_env sample_mm (VStr "ann@example.com") "Ann" (initial_state tt)) =
    Ret true /\
  on_stderr (trace (snd (new_nickname sample_env sample_mm (VStr "ann@example.com") "Ann"
                           (initial_state tt)))) = [].
Proof.
  apply (action_outcome sample_env sample_mm (call_new_nickname (VStr "ann@example.com") "Ann")
           (initial_state tt) (VDict [("id", VStr "u1")]) tt (VStr "u1") VNone tt
           (VDict [("id", VStr "u1"); ("nickname", VStr "Ann")]) tt);
    reflexivity.
Defined.
